(** * Static-layout PNOR item updater: a shallow embedding

    The development follows [item_updater_static.cpp]:
    the [utils] helpers ([concat_string], [pflash], [getPNORVersion],
    [pnorClear], [getPartsToClear]) and the methods of [ItemUpdaterStatic]
    and [GardResetStatic].

    A [std::string] is a sequence of 8-bit characters and is modelled by
    [string]; [std::string::npos] is [None].  Calls that leave the process
    (popen, mkdtemp, the file system, the logger, hiomapd, the D-Bus
    association helpers of the base class) are recorded in a trace and
    answered by an environment. *)

From Stdlib Require Import Ascii String ZArith List Lia.
From stdpp Require Import base option list strings gmap.
From stdpp Require Import sorting.


(** ** std::string operations used by the source *)

Module Str.

(** [s.find(c)]: index of the first occurrence of [c]. *)
Fixpoint find (c : ascii) (s : string) : option nat :=
  match s with
  | EmptyString => None
  | String a s' =>
      if Ascii.eqb a c then Some 0
      else match find c s' with
           | Some i => Some (S i)
           | None => None
           end
  end.

(** [s.find_first_of(c)] with a single character is [find]. *)
Definition find_first_of (c : ascii) (s : string) : option nat := find c s.

(** [s.find_first_not_of(c)]: index of the first character other than [c]. *)
Fixpoint find_first_not_of (c : ascii) (s : string) : option nat :=
  match s with
  | EmptyString => None
  | String a s' =>
      if Ascii.eqb a c
      then match find_first_not_of c s' with
           | Some i => Some (S i)
           | None => None
           end
      else Some 0
  end.

(** [s.substr(pos)]; every call site passes a position returned by a
    search in [s] itself, so [pos <= s.size()] and nothing is thrown. *)
Fixpoint substr_from (pos : nat) (s : string) : string :=
  match pos, s with
  | 0, _ => s
  | S p, String _ s' => substr_from p s'
  | S _, EmptyString => EmptyString
  end.

(** [s.substr(0, n)]. *)
Fixpoint substr_to (n : nat) (s : string) : string :=
  match n, s with
  | 0, _ => EmptyString
  | S p, String a s' => String a (substr_to p s')
  | S _, EmptyString => EmptyString
  end.

(** [s.substr(pos, n)]. *)
Definition substr (pos n : nat) (s : string) : string :=
  substr_to n (substr_from pos s).

(** The characters of a string, for membership statements. *)
Definition chars (s : string) : list ascii := list_ascii_of_string s.

End Str.

Definition newline : ascii := "010"%char.
Definition NUL : ascii := "000"%char.
Definition space : ascii := " "%char.

(** ** Input streams ([std::istringstream], [std::ifstream])

    A stream is its character sequence, the get position and the two
    state bits the source can observe.  [badbit] never arises on an
    in-memory sequence and is left out. *)

Record istream : Type := mkIstream {
  sdata : string;
  gpos : nat;
  failbit : bool;
  eofbit : bool
}.

Module Ios.

Definition good (f : istream) : bool := negb (failbit f) && negb (eofbit f).
Definition fail (f : istream) : bool := failbit f.

Definition remaining (f : istream) : string := Str.substr_from (gpos f) (sdata f).

Definition set_fail (f : istream) : istream :=
  mkIstream (sdata f) (gpos f) true (eofbit f).

(** A stream opened on a character sequence. *)
Definition open (s : string) : istream := mkIstream s 0 false false.

(** A file stream whose file could not be opened. *)
Definition open_failed : istream := mkIstream "" 0 true false.

(** [std::getline(is, str, delim)].  The sentry fails on a stream that
    is not good: failbit is set and [str] is left alone.  Otherwise [str]
    is erased and characters are appended up to the delimiter (which is
    extracted and dropped) or the end of the sequence (eofbit); when
    nothing at all was extracted failbit is set. *)
Definition getline (delim : ascii) (f : istream) (str : string) : istream * string :=
  if good f then
    let r := remaining f in
    match Str.find delim r with
    | Some k => (mkIstream (sdata f) (gpos f + S k) false false, Str.substr_to k r)
    | None =>
        (mkIstream (sdata f) (gpos f + String.length r)
                   (Nat.eqb (String.length r) 0) true, r)
    end
  else (set_fail f, str).

(** [is.read(buf, n)]: the sentry as above; then [n] characters are
    stored, or, when the sequence ends first, the available ones are
    stored over the start of [buf] and eofbit and failbit are set. *)
Definition read (n : nat) (f : istream) (buf : string) : istream * string :=
  if good f then
    let r := remaining f in
    if n <=? String.length r
    then (mkIstream (sdata f) (gpos f + n) false false,
          Str.substr_to n r +:+ Str.substr_from n buf)
    else (mkIstream (sdata f) (gpos f + String.length r) true true,
          r +:+ Str.substr_from (String.length r) buf)
  else (set_fail f, buf).

(** [is.seekg(0, std::ios::beg)]: eofbit is cleared first; the position
    moves only when the stream has not failed. *)
Definition seekg_beg (f : istream) : istream :=
  if failbit f then mkIstream (sdata f) (gpos f) true false
  else mkIstream (sdata f) 0 false false.

(** [is.ignore(n)]: discards [n] characters, or all that are left
    (setting eofbit) when there are fewer. *)
Definition ignore (n : nat) (f : istream) : istream :=
  if good f then
    let r := remaining f in
    if n <=? String.length r
    then mkIstream (sdata f) (gpos f + n) false false
    else mkIstream (sdata f) (gpos f + String.length r) false true
  else set_fail f.

End Ios.

(** ** utils::getPartsToClear(const std::string&) *)

(** The pair contains the partition name and if it should use ECC clear. *)
Definition PartClear : Type := string * bool.

Module utils_parse.

(** One turn of the [while] body: [ret] after the line was examined.
    Every [continue] leaves [ret] as it is. *)
Definition loop_body (line : string) (ret : list PartClear) : list PartClear :=
  match Str.find "["%char line with
  | None => ret
  | Some pos =>
      let flags := Str.substr_from pos line in
      match Str.find "F"%char flags with
      | None => ret
      | Some _ =>
          match Str.find_first_of space line with
          | None => ret
          | Some pos1 =>
              let line1 := Str.substr_from pos1 line in
              match Str.find_first_not_of space line1 with
              | None => ret
              | Some pos2 =>
                  let line2 := Str.substr_from pos2 line1 in
                  match Str.find_first_of space line2 with
                  | None => ret
                  | Some pos3 =>
                      let name := Str.substr 0 pos3 line2 in
                      let ecc := bool_decide (Str.find "E"%char flags ≠ None) in
                      ret ++ [(name, ecc)]
                  end
              end
          end
      end
  end.

(** [while (std::getline(iss, line)) { ... }], with the number of turns
    bounded by [fuel]. *)
Fixpoint loop (fuel : nat) (iss : istream) (line : string)
    (ret : list PartClear) : list PartClear :=
  match fuel with
  | 0 => ret
  | S fuel' =>
      let '(iss', line') := Ios.getline newline iss line in
      if Ios.fail iss' then ret
      else loop fuel' iss' line' (loop_body line' ret)
  end.

(** Every successful [getline] consumes a character, so one turn more
    than the length of [info] always reaches the end of the stream. *)
Definition getPartsToClear (info : string) : list PartClear :=
  loop (S (String.length info)) (Ios.open info) "" [].

End utils_parse.

(** ** The world outside the process *)

Inductive level : Type := ERR | INFO.

(** [entry("KEY=%s", v)] and [entry("KEY=%d", n)] of phosphor-logging. *)
Inductive LogField : Type :=
| FieldStr (key val : string)
| FieldInt (key : string) (val : Z).

Inductive Event : Type :=
| EvMkdtemp (template : string)
| EvPopen (cmd : string)
| EvOpen (path : string)
| EvRemoveAll (dir : string)
| EvLog (lvl : level) (msg : string) (fields : list LogField)
| EvHiomapdSuspend
| EvHiomapdResume
| EvCreateActiveAssociation (path : string)
| EvCreateUpdateableAssociation (path : string)
| EvUpdateFunctionalAssociation (versionId : string).

Global Instance LogField_eq_dec : EqDecision LogField.
Proof. solve_decision. Defined.
Global Instance level_eq_dec : EqDecision level.
Proof. solve_decision. Defined.
Global Instance Event_eq_dec : EqDecision Event.
Proof. solve_decision. Defined.

(** What the outside answers, as a function of everything the process did
    so far.  The constants of [config.h] and the two static functions of
    [version.hpp] are not part of this file of the source and are taken
    as given. *)
Record Env : Type := mkEnv {
  (** [fs::temp_directory_path()]: the directory it names when it
      returns *)
  temp_directory_path : string;
  (** the [what()] of the [fs::filesystem_error] it throws when the
      directory it finds is missing or is not a directory *)
  temp_directory_path_error : list Event → option string;
  (** [mkdtemp]: the directory created from the template, or NULL *)
  mkdtemp_result : list Event → string → option string;
  (** [popen] then [pclose]: [None] when popen returns NULL, else the
      status of pclose and the text read from the pipe *)
  popen_result : list Event → string → option (Z * string);
  (** the bytes of a file when it is opened for reading, if it can be *)
  file_content : list Event → string → option string;
  (** [fs::remove_all(dir, ec)]: the message of [ec] when it is set *)
  remove_all_error : list Event → string → option string;
  (** the bytes in the [magic] array before anything is read into it *)
  uninitialised : string;
  SOFTWARE_OBJPATH : string;
  ACTIVATION_FWD_ASSOCIATION : string;
  ACTIVATION_REV_ASSOCIATION : string;
  HOST_INVENTORY_PATH : string;
  (** [Version::getVersions], [Version::getId] *)
  getVersions : string → string * string;
  getId : string → string
}.

Record World : Type := mkWorld {
  trace : list Event;
  (** the scratch directories made by mkdtemp that still exist *)
  tmpdirs : gset string
}.

(** ** Computations that may throw *)

Inductive outcome (A : Type) : Type :=
| Returned (a : A)
| Thrown (what : string).
Global Arguments Returned {A} a.
Global Arguments Thrown {A} what.

Definition M (A : Type) : Type := World → outcome A * World.

Global Instance M_ret : MRet M := λ A a w, (Returned a, w).
Global Instance M_bind : MBind M := λ A B k m w,
  match m w with
  | (Returned a, w') => k a w'
  | (Thrown e, w') => (Thrown e, w')
  end.

Definition throw {A : Type} (what : string) : M A := λ w, (Thrown what, w).
Definition emit (e : Event) : M unit :=
  λ w, (Returned tt, mkWorld (trace w ++ [e]) (tmpdirs w)).
Definition history : M (list Event) := λ w, (Returned (trace w), w).
Definition dir_created (d : string) : M unit :=
  λ w, (Returned tt, mkWorld (trace w) ({[d]} ∪ tmpdirs w)).
Definition dir_removed (d : string) : M unit :=
  λ w, (Returned tt, mkWorld (trace w) (tmpdirs w ∖ {[d]})).

(** A range-based [for] over a vector. *)
Fixpoint for_each {A : Type} (body : A → M unit) (l : list A) : M unit :=
  match l with
  | [] => mret tt
  | x :: l' => body x;; for_each body l'
  end.

Definition log (lvl : level) (msg : string) (fields : list LogField) : M unit :=
  emit (EvLog lvl msg fields).

(** [fs::path::operator/] on POSIX: an absolute right operand replaces
    the path; a separator is added unless the left operand is empty or
    ends with one. *)
Fixpoint ends_with_slash (s : string) : bool :=
  match s with
  | EmptyString => false
  | String a EmptyString => Ascii.eqb a "/"%char
  | String _ s' => ends_with_slash s'
  end.

Definition path_append (p q : string) : string :=
  match q with
  | String "/"%char _ => q
  | _ =>
      match p with
      | EmptyString => q
      | _ => if ends_with_slash p then p +:+ q else p +:+ "/" +:+ q
      end
  end.

(** ** namespace utils *)

Module utils.
Section WithEnv.
Variable env : Env.

(** [((s << ts << " "), ...) << std::endl] *)
Fixpoint concat_string (ts : list string) : string :=
  match ts with
  | [] => String newline ""
  | t :: ts' => t +:+ " " +:+ concat_string ts'
  end.

(** Helper function to run pflash command.  Returns return code and the
    stdout. *)
Definition pflash (ts : list string) : M (Z * string) :=
  let cmd := concat_string ("pflash" :: ts) in
  h ← history;
  emit (EvPopen cmd);;
  match popen_result env h cmd with
  | None => throw "popen() failed!"
  | Some (rc, result) => mret (rc, result)
  end.

(** [fs::temp_directory_path()], the overload that throws.  It only looks
    at the environment and at the directory; it leaves no event. *)
Definition fs_temp_directory_path : M string :=
  h ← history;
  match temp_directory_path_error env h with
  | Some what => throw what
  | None => mret (temp_directory_path env)
  end.

Definition mkdtemp (template : string) : M (option string) :=
  h ← history;
  emit (EvMkdtemp template);;
  match mkdtemp_result env h template with
  | None => mret None
  | Some d => dir_created d;; mret (Some d)
  end.

Definition ifstream_open (path : string) : M istream :=
  h ← history;
  emit (EvOpen path);;
  match file_content env h path with
  | None => mret Ios.open_failed
  | Some bytes => mret (Ios.open bytes)
  end.

Definition remove_all (dir : string) : M (option string) :=
  h ← history;
  emit (EvRemoveAll dir);;
  match remove_all_error env h dir with
  | None => dir_removed dir;; mret None
  | Some msg => mret (Some msg)
  end.

Definition MAGIC : string :=
  String (ascii_of_N 0x17) (String (ascii_of_N 0x08)
    (String (ascii_of_N 0x20) (String (ascii_of_N 0x11) ""))).
Definition MAGIC_SIZE : nat := 4.

(** [std::memcmp(a, b, n) == 0] *)
Definition memcmp_eq (a b : string) (n : nat) : bool :=
  bool_decide (Str.substr_to n a = Str.substr_to n b).

(** Lines 91 to 103 of [getPNORVersion]: what is read out of the opened
    version file. [garbage] is the [magic] array before the read. *)
Definition read_version (garbage : string) (f : istream) : string :=
  let version := "" in
  let '(f, magic) := Ios.read MAGIC_SIZE f garbage in
  let f := Ios.seekg_beg f in
  let f := if memcmp_eq magic MAGIC MAGIC_SIZE
           then Ios.ignore 4096 f (* Skip the first 4K header *)
           else f in
  let '(_, version) := Ios.getline NUL f version in
  version.

Definition getPNORVersion : M string :=
  tmp ← fs_temp_directory_path;
  created ← mkdtemp (path_append tmp "versionXXXXXX");
  match created with
  | None =>
      log ERR "Failed to create temp dir" [];;
      mret ""
  | Some tmpDir =>
      let versionFile := path_append tmpDir "version" in
      '(rc, _) ← pflash ["-P VERSION -r"; versionFile; "2>&1 > /dev/null"];
      if bool_decide (rc ≠ 0%Z) then
        log ERR "Failed to read VERSION" [FieldInt "RETURNCODE" rc];;
        mret ""
      else
        f ← ifstream_open versionFile;
        let version := read_version (uninitialised env) f in
        (* Clear the temp dir *)
        ec ← remove_all tmpDir;
        match ec with
        | Some msg =>
            log ERR "Failed to remove temp dir"
                [FieldStr "DIR" tmpDir; FieldStr "ERR" msg]
        | None => mret tt
        end;;
        mret version
  end.

Definition pnorClear (part : string) (shouldEcc : bool) : M unit :=
  '(rc, _) ← pflash ["-P"; part; if shouldEcc then "-c" else "-e";
                     "-f >/dev/null"];
  if bool_decide (rc ≠ 0%Z) then
    log ERR "Failed to clear partition"
        [FieldStr "PART" part; FieldInt "RETURNCODE" rc]
  else
    log INFO "Clear partition successfully" [FieldStr "PART" part].

(** The default argument [shouldEcc = true]. *)
Definition pnorClear_default (part : string) : M unit := pnorClear part true.

(** Get partitions that should be cleared *)
Definition getPartsToClear : M (list PartClear) :=
  '(_, pflashInfo) ← pflash ["-i | grep ^ID | grep 'F'"];
  mret (utils_parse.getPartsToClear pflashInfo).

(** Modelled from the spec: [utils::hiomapdSuspend] is declared in
    [utils.hpp] and defined outside this file; the spec describes it as
    a fire-and-forget signal to the access-mediation service whose
    return payload is not consumed. *)
Definition hiomapdSuspend : M unit := emit EvHiomapdSuspend.

(** Modelled from the spec: [utils::hiomapdResume], as
    [hiomapdSuspend]. *)
Definition hiomapdResume : M unit := emit EvHiomapdResume.

End WithEnv.
End utils.

(** ** The updater object *)

Inductive Activations : Type := Active | Invalid.
Inductive VersionPurpose : Type := Host.

(** (forward, reverse, endpoint) *)
Definition Association : Type := string * string * string.
Definition AssociationList : Type := list Association.

Record RedundancyPriority : Type := mkRedundancyPriority {
  rp_path : string;
  (** uint8_t *)
  priority : Z
}.

Record ActivationStatic : Type := mkActivationStatic {
  act_path : string;
  versionId : string;
  extVersion : string;
  activation : Activations;
  associations : AssociationList;
  redundancyPriority : option RedundancyPriority
}.

Record Version : Type := mkVersion {
  ver_path : string;
  ver_versionId : string;
  versionStr : string;
  versionPurpose : VersionPurpose;
  filePath : string;
  (** the Delete interface is attached *)
  deleteObject : bool
}.

Record ItemUpdaterStatic : Type := mkItemUpdaterStatic {
  activations : gmap string ActivationStatic;
  versions : gmap string Version;
  (** The functional version ID *)
  functionalVersionId : string
}.

(** [std::map::insert]: an element whose key is present is kept. *)
Definition map_insert {V : Type} (k : string) (v : V) (m : gmap string V)
    : gmap string V :=
  match m !! k with
  | Some _ => m
  | None => <[k := v]> m
  end.

Definition set_redundancyPriority (rp : RedundancyPriority)
    (a : ActivationStatic) : ActivationStatic :=
  mkActivationStatic (act_path a) (versionId a) (extVersion a) (activation a)
                     (associations a) (Some rp).

Global Instance Activations_eq_dec : EqDecision Activations.
Proof. solve_decision. Defined.

Module ItemUpdaterStatic_.
Section WithEnv.
Variable env : Env.

(** Modelled from the spec: [ItemUpdater::createActiveAssociation] of
    the base class is defined outside this file; the spec has it mark
    the image path as the target of the "active" association. *)
Definition createActiveAssociation (path : string) : M unit :=
  emit (EvCreateActiveAssociation path).

(** Modelled from the spec: [ItemUpdater::createUpdateableAssociation]
    of the base class; the spec has it attach an "updateable"
    association to the image path. *)
Definition createUpdateableAssociation (path : string) : M unit :=
  emit (EvCreateUpdateableAssociation path).

(** Modelled from the spec: [ItemUpdater::updateFunctionalAssociation]
    of the base class; the spec calls it the generic association-update
    collaborator that keeps the "functional" edge of the bus
    consistent. *)
Definition base_updateFunctionalAssociation (versionId : string) : M unit :=
  emit (EvUpdateFunctionalAssociation versionId).

Definition validateImage (_ : string) : bool := true.

Definition updateFunctionalAssociation (self : ItemUpdaterStatic)
    (versionId : string) : M ItemUpdaterStatic :=
  let self := mkItemUpdaterStatic (activations self) (versions self) versionId in
  base_updateFunctionalAssociation versionId;;
  mret self.

Definition processPNORImage (self : ItemUpdaterStatic) : M ItemUpdaterStatic :=
  fullVersion ← utils.getPNORVersion env;
  let '(version, extendedVersion) := getVersions env fullVersion in
  let id := getId env version in
  if bool_decide (id = "") then
    (* Possibly a corrupted PNOR *)
    mret self
  else
    let activationState := Active in
    activationState ←
      (if bool_decide (version = "") then
         log ERR "Failed to read version" [FieldStr "VERSION" fullVersion];;
         mret Invalid
       else mret activationState);
    activationState ←
      (if bool_decide (extendedVersion = "") then
         log ERR "Failed to read extendedVersion"
             [FieldStr "VERSION" fullVersion];;
         mret Invalid
       else mret activationState);
    let purpose := Host in
    let path := path_append (SOFTWARE_OBJPATH env) id in
    let associations : AssociationList := [] in
    associations ←
      (if bool_decide (activationState = Active) then
         (* Create an association to the host inventory item *)
         let associations :=
           associations ++ [(ACTIVATION_FWD_ASSOCIATION env,
                             ACTIVATION_REV_ASSOCIATION env,
                             HOST_INVENTORY_PATH env)] in
         (* Create an active association since this image is active *)
         createActiveAssociation path;;
         mret associations
       else mret associations);
    (* All updateable firmware components must expose the updateable
       association. *)
    createUpdateableAssociation path;;
    (* Create Activation instance for this version. *)
    let acts :=
      map_insert id (mkActivationStatic path id extendedVersion
                                        activationState associations None)
                 (activations self) in
    (* If Active, create RedundancyPriority instance for this version. *)
    let acts :=
      if bool_decide (activationState = Active)
      then alter (set_redundancyPriority (mkRedundancyPriority path 0%Z)) id acts
      else acts in
    (* Create Version instance for this version. *)
    let versionPtr := mkVersion path id version purpose "" true in
    let vers := map_insert id versionPtr (versions self) in
    let self := mkItemUpdaterStatic acts vers (functionalVersionId self) in
    if bool_decide (id ≠ "") then updateFunctionalAssociation self id
    else mret self.

Definition reset : M unit :=
  partitions ← utils.getPartsToClear env;
  utils.hiomapdSuspend;;
  for_each (λ p : PartClear, utils.pnorClear env p.1 p.2) partitions;;
  utils.hiomapdResume.

Definition isVersionFunctional (self : ItemUpdaterStatic)
    (versionId : string) : bool :=
  bool_decide (versionId = functionalVersionId self).

Definition freePriority (self : ItemUpdaterStatic) (_ : Z) (_ : string)
    : ItemUpdaterStatic := self.

Definition deleteAll (self : ItemUpdaterStatic) : ItemUpdaterStatic := self.

End WithEnv.
End ItemUpdaterStatic_.

Module GardResetStatic.
Section WithEnv.
Variable env : Env.

Definition reset : M unit :=
  (* Clear gard partition *)
  utils.hiomapdSuspend;;
  utils.pnorClear_default env "GUARD";;
  utils.hiomapdResume.

End WithEnv.
End GardResetStatic.

(** * Partition listings *)

(** The lines of a listing as successive [std::getline] calls yield them:
    a final newline does not open another line. *)
Fixpoint listing_lines (s : string) : list string :=
  match s with
  | EmptyString => []
  | String c s' =>
      if Ascii.eqb c newline then "" :: listing_lines s'
      else match listing_lines s' with
           | [] => [String c ""]
           | l :: ls => String c l :: ls
           end
  end.

(** The flag field as the source takes it: the line from its first '['
    on, to the end of the line. *)
Definition flags_from_bracket (line : string) : option string :=
  match Str.find "["%char line with
  | Some pos => Some (Str.substr_from pos line)
  | None => None
  end.

(** The flag field as the line format [[<flags>]] has it: the text
    between the first '[' and the next ']'. *)
Definition bracketed_flags (line : string) : option string :=
  match Str.find "["%char line with
  | Some pos =>
      let after := Str.substr_from (S pos) line in
      match Str.find "]"%char after with
      | Some close => Some (Str.substr_to close after)
      | None => None
      end
  | None => None
  end.

(** [p] is a candidate of [line]: the line has a flag field, the field
    holds an F, and the ECC bit says whether it holds an E. *)
Definition candidate_of (flag_field : string → option string)
    (line : string) (p : PartClear) : Prop :=
  ∃ flags, flag_field line = Some flags
           ∧ "F"%char ∈ Str.chars flags
           ∧ (p.2 = true ↔ "E"%char ∈ Str.chars flags).

(** A good stream positioned at [pos]. *)
Definition stream_at (data : string) (pos : nat) : istream :=
  mkIstream data pos false false.

(** * Version blobs *)

(** The text of [s] up to its first NUL, or all of it. *)
Fixpoint c_str (s : string) : string :=
  match s with
  | EmptyString => EmptyString
  | String a s' => if Ascii.eqb a NUL then EmptyString else String a (c_str s')
  end.

(** The blob begins with the four magic bytes. *)
Definition has_magic (blob : string) : bool :=
  bool_decide (Str.substr_to 4 blob = utils.MAGIC).

(** The version text of a blob when decoding starts at [offset]. *)
Definition decoded_from (offset : nat) (blob : string) : string :=
  c_str (Str.substr_from offset blob).

(** * Traces of the reset operations *)

(** The command lines the three kinds of pflash calls run. *)
Definition list_cmd : string :=
  utils.concat_string ["pflash"; "-i | grep ^ID | grep 'F'"].
Definition clear_cmd (p : PartClear) : string :=
  utils.concat_string ["pflash"; "-P"; p.1; if p.2 then "-c" else "-e";
                       "-f >/dev/null"].
Definition read_cmd (versionFile : string) : string :=
  utils.concat_string ["pflash"; "-P VERSION -r"; versionFile; "2>&1 > /dev/null"].

(** The command lines handed to popen, in order. *)
Definition popen_cmds (evs : list Event) : list string :=
  omap (λ e, match e with EvPopen c => Some c | _ => None end) evs.

(** The files opened for reading, in order. *)
Definition opened_files (evs : list Event) : list string :=
  omap (λ e, match e with EvOpen f => Some f | _ => None end) evs.

(** The candidates of a factory reset started in [w]: what the listing
    printed by the tool parses to. *)
Definition reset_candidates (env : Env) (w : World) : list PartClear :=
  match popen_result env (trace w) list_cmd with
  | Some (_, pflashInfo) => utils_parse.getPartsToClear pflashInfo
  | None => []
  end.

(** The bracket of a factory reset started in [w]: after the listing
    query, one suspend; then a clear attempted for every candidate, in
    listing order; then one resume, and nothing after it. *)
Definition reset_bracket (env : Env) (w : World) : Prop :=
  ∃ mid : list Event,
    trace (ItemUpdaterStatic_.reset env w).2
    = trace w ++ [EvPopen list_cmd; EvHiomapdSuspend] ++ mid ++ [EvHiomapdResume]
    ∧ (EvHiomapdSuspend ∉ mid)
    ∧ (EvHiomapdResume ∉ mid)
    ∧ popen_cmds mid = clear_cmd <$> reset_candidates env w.

(** The bracket of a guard reset started in [w]: one suspend, one clear
    of GUARD in the ECC mode with its log line, one resume; no listing
    query. *)
Definition gard_bracket (env : Env) (w : World) : Prop :=
  ∃ lvl msg fields,
    trace (GardResetStatic.reset env w).2
    = trace w ++ [EvHiomapdSuspend;
                  EvPopen ("pflash -P GUARD -c -f >/dev/null " +:+ String newline "");
                  EvLog lvl msg fields;
                  EvHiomapdResume].

(** The tool can always be started: popen never returns NULL. *)
Definition popen_succeeds (env : Env) : Prop :=
  ∀ h cmd, popen_result env h cmd ≠ None.

(** * Sample environments *)

Definition world0 : World := mkWorld [] ∅.

(** Stand-ins for [Version::getVersions] and [Version::getId]: the first
    line and the rest; the first eight characters. *)
Definition sample_getVersions (full : string) : string * string :=
  match Str.find newline full with
  | Some k => (Str.substr_to k full, Str.substr_from (S k) full)
  | None => (full, "")
  end.
Definition sample_getId (version : string) : string := Str.substr_to 8 version.

Definition sample_env (popen : list Event → string → option (Z * string))
    (mkd : option string) (file : option string) (rm : option string) : Env :=
  mkEnv "/tmp" (λ _, None) (λ _ _, mkd) popen (λ _ _, file) (λ _ _, rm) ""
        "/xyz/openbmc_project/software" "inventory" "activation"
        "/xyz/openbmc_project/inventory/system/chassis"
        sample_getVersions sample_getId.

Definition sample_listing : string :=
  "ID=06 MVPD 0x0012d000..0x001bd000 (actual=0x00090000) [E--P--F-C-]"
  +:+ String newline
  ("ID=07 CVPD 0x001bd000..0x00205000 (actual=0x00048000) [---P--F-C-]"
  +:+ String newline
  ("ID=11 HBB 0x00205000..0x00305000 (actual=0x00100000) [EL--------]"
  +:+ String newline "")).

(** The listing query succeeds; every clear exits with status 1. *)
Definition popen_clears_fail (h : list Event) (cmd : string) : option (Z * string) :=
  if bool_decide (cmd = list_cmd) then Some (0%Z, sample_listing)
  else Some (1%Z, "").

(** The listing query succeeds; no clear can be started. *)
Definition popen_clears_do_not_start (h : list Event) (cmd : string)
    : option (Z * string) :=
  if bool_decide (cmd = list_cmd) then Some (0%Z, sample_listing)
  else None.

(** popen always returns NULL. *)
Definition popen_never_starts (h : list Event) (cmd : string)
    : option (Z * string) := None.

(** Every command exits with the given status and prints nothing. *)
Definition popen_exits (rc : Z) (h : list Event) (cmd : string)
    : option (Z * string) := Some (rc, "").


(** The events a partition clear leaves in the trace: the popen of the
    tool and the log line. *)
Definition is_clear_event (e : Event) : Prop :=
  match e with
  | EvPopen _ | EvLog _ _ _ => True
  | _ => False
  end.

(** The log line [pnorClear] writes for a return code. *)
Definition clear_log (part : string) (rc : Z) : Event :=
  if bool_decide (rc ≠ 0%Z)
  then EvLog ERR "Failed to clear partition"
             [FieldStr "PART" part; FieldInt "RETURNCODE" rc]
  else EvLog INFO "Clear partition successfully" [FieldStr "PART" part].

(** The world after more events. *)
Definition after (w : World) (evs : list Event) : World :=
  mkWorld (trace w ++ evs) (tmpdirs w).


(** The scratch directory the sample environments create. *)
Definition sample_tmpdir : string := "/tmp/versionAb12Cd".

(** The tool runs; the listing query prints the sample listing and every
    clear fails with status 1. *)
Definition env_clears_fail : Env :=
  sample_env popen_clears_fail (Some sample_tmpdir) None None.

(** The listing query runs; popen returns NULL for every clear. *)
Definition env_clears_do_not_start : Env :=
  sample_env popen_clears_do_not_start (Some sample_tmpdir) None None.

(** popen returns NULL for every command. *)
Definition env_tool_never_starts : Env :=
  sample_env popen_never_starts (Some sample_tmpdir) None None.

(** The scratch directory is made and the read of VERSION exits with
    status 1. *)
Definition env_read_exits_1 : Env :=
  sample_env (popen_exits 1) (Some sample_tmpdir) None None.

(** mkdtemp returns NULL. *)
Definition env_no_tmpdir : Env :=
  sample_env (popen_exits 0) None None None.

(** TMPDIR names a directory that does not exist:
    [fs::temp_directory_path()] throws. *)
Definition temp_directory_path_what : string :=
  "filesystem error: temp_directory_path: No such file or directory".
Definition env_no_tmp : Env :=
  mkEnv "/nonexistent" (λ _, Some temp_directory_path_what)
        (λ _ _, Some sample_tmpdir) (popen_exits 0) (λ _ _, None) (λ _ _, None) ""
        "/xyz/openbmc_project/software" "inventory" "activation"
        "/xyz/openbmc_project/inventory/system/chassis"
        sample_getVersions sample_getId.

(** The read of VERSION succeeds but the file cannot be opened. *)
Definition env_no_version_file : Env :=
  sample_env (popen_exits 0) (Some sample_tmpdir) None None.


(** * The steps of a version read *)

(** The template handed to mkdtemp. *)
Definition tmp_template (env : Env) : string :=
  path_append (temp_directory_path env) "versionXXXXXX".

(** The world once mkdtemp has made [d]. *)
Definition made_tmpdir (env : Env) (w : World) (d : string) : World :=
  mkWorld (trace w ++ [EvMkdtemp (tmp_template env)]) ({[d]} ∪ tmpdirs w).

(** [getPNORVersion] hands a string to its caller. *)
Definition returns_version (env : Env) (w : World) : Prop :=
  ∃ v, (utils.getPNORVersion env w).1 = Returned v.

(** The version file holds the given bytes and everything else succeeds. *)
Definition env_version_file (blob : string) : Env :=
  sample_env (popen_exits 0) (Some sample_tmpdir) (Some blob) None.

(** As [env_version_file], but the scratch directory cannot be removed. *)
Definition env_tmpdir_stays (blob : string) : Env :=
  sample_env (popen_exits 0) (Some sample_tmpdir) (Some blob) (Some "Directory not empty").


(** The ways a version read goes wrong before any byte is decoded. *)
Inductive ReadFailure : Type :=
| TempPathNotFound (what : string)
| TempDirNotCreated
| ToolExitsNonZero (d : string) (rc : Z) (out : string)
| VersionFileNotOpened (d : string) (out : string)
| ToolNotStarted (d : string).

(** The failure [fl] is what the environment does to a read started in
    [w]; [d] is the scratch directory mkdtemp made. *)
Definition occurs (env : Env) (w : World) (fl : ReadFailure) : Prop :=
  let found := temp_directory_path_error env (trace w) = None in
  let made d := found ∧ mkdtemp_result env (trace w) (tmp_template env) = Some d in
  let answer d :=
    popen_result env (trace (made_tmpdir env w d)) (read_cmd (path_append d "version")) in
  match fl with
  | TempPathNotFound what =>
      temp_directory_path_error env (trace w) = Some what
  | TempDirNotCreated =>
      found ∧ mkdtemp_result env (trace w) (tmp_template env) = None
  | ToolExitsNonZero d rc out =>
      made d ∧ answer d = Some (rc, out) ∧ rc ≠ 0%Z
  | VersionFileNotOpened d out =>
      made d ∧ answer d = Some (0%Z, out)
      ∧ file_content env
          (trace (made_tmpdir env w d) ++ [EvPopen (read_cmd (path_append d "version"))])
          (path_append d "version") = None
  | ToolNotStarted d =>
      made d ∧ answer d = None
  end.

(** What the caller gets on each failure. *)
Definition failure_result (fl : ReadFailure) : outcome string :=
  match fl with
  | TempPathNotFound what => Thrown what
  | ToolNotStarted _ => Thrown "popen() failed!"
  | _ => Returned ""
  end.

(** What a failed read from [w] to [w'] has not done: nothing at all
    when there is no directory for temporary files, no subprocess when
    the scratch directory is missing, no file opened when the tool
    failed. *)
Definition skipped (fl : ReadFailure) (w w' : World) : Prop :=
  match fl with
  | TempPathNotFound _ => w' = w
  | TempDirNotCreated => popen_cmds (trace w') = popen_cmds (trace w)
  | ToolExitsNonZero _ _ _ | ToolNotStarted _ =>
      opened_files (trace w') = opened_files (trace w)
  | VersionFileNotOpened _ _ => True
  end.


(** * Histories of the updater *)

(** The SOFTWARE_OBJPATH-relative object path of an image. *)
Definition image_path (env : Env) (id : string) : string :=
  path_append (SOFTWARE_OBJPATH env) id.

(** The id a call of [processPNORImage] started in [w] registers: the id
    derived from what [getPNORVersion] returns, unless it is empty or the
    read threw. *)
Definition registered_by (env : Env) (w : World) : option string :=
  match utils.getPNORVersion env w with
  | (Returned fullVersion, _) =>
      let id := getId env (getVersions env fullVersion).1 in
      if bool_decide (id = "") then None else Some id
  | (Thrown _, _) => None
  end.

(** The object after a call: an exception leaves it as it was. *)
Definition object_after (self : ItemUpdaterStatic)
    (r : outcome ItemUpdaterStatic) : ItemUpdaterStatic :=
  match r with
  | Returned self' => self'
  | Thrown _ => self
  end.

(** [calls env self0 w0 last self w]: a sequence of calls of the methods
    of this file leads from the object [self0] in the world [w0] to
    [self] in [w]; [last] is the id registered by the latest call of
    [processPNORImage] that registered one. *)
Inductive calls (env : Env) (self0 : ItemUpdaterStatic) (w0 : World)
    : option string → ItemUpdaterStatic → World → Prop :=
| calls_none : calls env self0 w0 None self0 w0
| calls_processPNORImage last self w r w' :
    calls env self0 w0 last self w →
    ItemUpdaterStatic_.processPNORImage env self w = (r, w') →
    calls env self0 w0
          (match registered_by env w with Some id => Some id | None => last end)
          (object_after self r) w'
| calls_reset last self w r w' :
    calls env self0 w0 last self w →
    ItemUpdaterStatic_.reset env w = (r, w') →
    calls env self0 w0 last self w'
| calls_freePriority last self w value versionId :
    calls env self0 w0 last self w →
    calls env self0 w0 last (ItemUpdaterStatic_.freePriority self value versionId) w
| calls_deleteAll last self w :
    calls env self0 w0 last self w →
    calls env self0 w0 last (ItemUpdaterStatic_.deleteAll self) w.

(** The updater as its constructor leaves it before the first scan. *)
Definition fresh_updater : ItemUpdaterStatic := mkItemUpdaterStatic ∅ ∅ "".


(** Version files for the sample runs: a version with an extended
    version, a version alone, and an erased partition. *)
Definition blob_full : string :=
  "open-power-v2.4" +:+ String newline "buildroot-2021.02".
Definition blob_version_only : string := "open-power-v2.4".
Definition blob_erased : string :=
  String NUL (String NUL (String NUL (String NUL ""))).

(** The world after a successful read in the sample environments. *)
Definition world_after_read : World :=
  mkWorld [EvMkdtemp "/tmp/versionXXXXXX";
           EvPopen (read_cmd "/tmp/versionAb12Cd/version");
           EvOpen "/tmp/versionAb12Cd/version";
           EvRemoveAll sample_tmpdir]
          (({[sample_tmpdir]} ∪ ∅) ∖ {[sample_tmpdir]}).




(** [n] spaces. *)
Fixpoint spaces (n : nat) : string :=
  match n with
  | 0 => ""
  | S n' => String space (spaces n')
  end.


(** * The rest of the updater *)

(** [std::map<std::string, ...>] iterates in ascending key order;
    [std::less<std::string>] compares bytes as unsigned, a proper prefix
    first, as [String.le] does. *)
Definition key_le {A : Type} : relation (string * A) :=
  λ x y, String.le x.1 y.1.

Global Instance key_le_dec {A : Type} : RelDecision (@key_le A).
Proof. intros x y. unfold key_le. apply _. Defined.

(** The elements of a map as a range-based [for] visits them. *)
Definition in_key_order {A : Type} (m : gmap string A) : list (string * A) :=
  merge_sort key_le (map_to_list m).

Module ItemUpdaterStatic_rest.

Definition createActivationObject (path versionId extVersion : string)
    (activationStatus : Activations) (assocs : AssociationList)
    : ActivationStatic :=
  mkActivationStatic path versionId extVersion activationStatus assocs None.

Definition createVersionObject (objPath versionId versionString : string)
    (versionPurpose : VersionPurpose) (filePath : string) : Version :=
  mkVersion objPath versionId versionString versionPurpose filePath true.

Section WithErase.
(** [ItemUpdater::erase] of the base class is defined outside this file
    and is taken as given: it answers whether the entry was erased and
    leaves an updated object. *)
Variable erase : string → ItemUpdaterStatic → M (bool * ItemUpdaterStatic).

(** The [for] loop of [freeSpace] over the elements that are left. *)
Fixpoint freeSpace_loop (rest : list (string * ActivationStatic))
    (self : ItemUpdaterStatic) : M (bool * ItemUpdaterStatic) :=
  match rest with
  | [] =>
      (* No active PNOR means PNOR is empty or corrupted *)
      mret (true, self)
  | iter :: rest' =>
      if bool_decide (activation iter.2 = Active)
      then erase (versionId iter.2) self
      else freeSpace_loop rest' self
  end.

(** For now assume static layout only has 1 active PNOR, so erase the
    active PNOR *)
Definition freeSpace (self : ItemUpdaterStatic) : M (bool * ItemUpdaterStatic) :=
  freeSpace_loop (in_key_order (activations self)) self.

End WithErase.
End ItemUpdaterStatic_rest.

(** * Statements about the rest *)

(** The activation state [processPNORImage] computes from the two parts
    of the version. *)
Definition state_of (version extendedVersion : string) : Activations :=
  if bool_decide (version = "") then Invalid
  else if bool_decide (extendedVersion = "") then Invalid
  else Active.

(** The diagnostics of [processPNORImage] for the parts that are empty. *)
Definition empty_part_logs (fullVersion version extendedVersion : string)
    : list Event :=
  (if bool_decide (version = "")
   then [EvLog ERR "Failed to read version" [FieldStr "VERSION" fullVersion]]
   else [])
  ++ (if bool_decide (extendedVersion = "")
      then [EvLog ERR "Failed to read extendedVersion"
                  [FieldStr "VERSION" fullVersion]]
      else []).

(** The association calls of [processPNORImage] for an image in state
    [st]. *)
Definition association_calls (env : Env) (id : string) (st : Activations)
    : list Event :=
  (if bool_decide (st = Active)
   then [EvCreateActiveAssociation (image_path env id)]
   else [])
  ++ [EvCreateUpdateableAssociation (image_path env id);
      EvUpdateFunctionalAssociation id].

(** The entity [processPNORImage] builds for an image in state [st]. *)
Definition entity_for (env : Env) (id extendedVersion : string)
    (st : Activations) : ActivationStatic :=
  mkActivationStatic (image_path env id) id extendedVersion st
    (if bool_decide (st = Active)
     then [(ACTIVATION_FWD_ASSOCIATION env, ACTIVATION_REV_ASSOCIATION env,
            HOST_INVENTORY_PATH env)]
     else [])
    (if bool_decide (st = Active)
     then Some (mkRedundancyPriority (image_path env id) 0%Z)
     else None).

(** The partition named in the PART field of each log line. *)
Definition logged_parts (evs : list Event) : list string :=
  omap (λ e, match e with
             | EvLog _ _ (FieldStr "PART" part :: _) => Some part
             | _ => None
             end) evs.

(** The same environment with other bytes in the [magic] array. *)
Definition with_uninitialised (env : Env) (garbage : string) : Env :=
  mkEnv (temp_directory_path env) (temp_directory_path_error env)
        (mkdtemp_result env) (popen_result env)
        (file_content env) (remove_all_error env) garbage
        (SOFTWARE_OBJPATH env) (ACTIVATION_FWD_ASSOCIATION env)
        (ACTIVATION_REV_ASSOCIATION env) (HOST_INVENTORY_PATH env)
        (getVersions env) (getId env).

(** Every entity and every version object is stored under its own id and
    carries the object path of that id, and the two maps hold the same
    ids. *)
Definition well_keyed (env : Env) (self : ItemUpdaterStatic) : Prop :=
  (∀ k a, activations self !! k = Some a →
          versionId a = k ∧ act_path a = image_path env k)
  ∧ (∀ k v, versions self !! k = Some v →
            ver_versionId v = k ∧ ver_path v = image_path env k)
  ∧ dom (activations self) = dom (versions self).

(** An [erase] that removes the entry from both maps and reports
    success, for the sample runs. *)
Definition sample_erase (entryId : string) (self : ItemUpdaterStatic)
    : M (bool * ItemUpdaterStatic) :=
  mret (true, mkItemUpdaterStatic (delete entryId (activations self))
                                  (delete entryId (versions self))
                                  (functionalVersionId self)).


(** An updater that holds one Invalid image, registered as
    [processPNORImage] registers it. *)
Definition sample_updater : ItemUpdaterStatic :=
  mkItemUpdaterStatic
    {["feedbeef" :=
        mkActivationStatic "/xyz/openbmc_project/software/feedbeef" "feedbeef"
                           "" Invalid [] None]}
    {["feedbeef" :=
        mkVersion "/xyz/openbmc_project/software/feedbeef" "feedbeef"
                  "feedbeef-1.0" Host "" true]}
    "feedbeef".

(** The version read throws after the scratch directory is made. *)
Definition world_after_failed_popen : World :=
  after (made_tmpdir env_tool_never_starts world0 sample_tmpdir)
        [EvPopen (read_cmd "/tmp/versionAb12Cd/version")].


(** An updater that holds two Active images. *)
Definition updater_two_active : ItemUpdaterStatic :=
  mkItemUpdaterStatic
    (<["bbbb2222" :=
         mkActivationStatic "/xyz/openbmc_project/software/bbbb2222" "bbbb2222"
                            "ext" Active [] None]>
     {["aaaa1111" :=
         mkActivationStatic "/xyz/openbmc_project/software/aaaa1111" "aaaa1111"
                            "ext" Active [] None]})
    ∅ "bbbb2222".


(** What [std::map::insert] and the later assignment of the priority
    leave alone in an entity that is registered already. *)
Definition same_image (a a' : ActivationStatic) : Prop :=
  versionId a' = versionId a ∧ act_path a' = act_path a
  ∧ extVersion a' = extVersion a ∧ activation a' = activation a
  ∧ associations a' = associations a.


(** * Lines of a listing, field by field *)

(** The name field as lines 160 to 179 of the source cut it out of a
    line: what stands between the first run of spaces and the next
    space.  [None] where the source says [continue]. *)
Definition name_field (line : string) : option string :=
  match Str.find_first_of space line with
  | None => None
  | Some pos1 =>
      let line1 := Str.substr_from pos1 line in
      match Str.find_first_not_of space line1 with
      | None => None
      | Some pos2 =>
          let line2 := Str.substr_from pos2 line1 in
          match Str.find_first_of space line2 with
          | None => None
          | Some pos3 => Some (Str.substr 0 pos3 line2)
          end
      end
  end.

(** [name] is the second field of [line]: the line is an id without
    spaces, one or more spaces, the name (not empty, without spaces), a
    space, and the rest. *)
Definition named (line name : string) : Prop :=
  ∃ (id rest : string) (n : nat),
    line = id +:+ spaces (S n) +:+ name +:+ String space rest
    ∧ (space ∉ Str.chars id) ∧ name ≠ "" ∧ (space ∉ Str.chars name).

(** [p] is the descriptor of [line]: the flag field of the line holds an
    F, the name of [p] is the second field of the line, and the ECC bit
    of [p] says whether the flag field holds an E. *)
Definition descriptor_of (flag_field : string → option string)
    (line : string) (p : PartClear) : Prop :=
  ∃ flags, flag_field line = Some flags
           ∧ "F"%char ∈ Str.chars flags
           ∧ named line p.1
           ∧ (p.2 = true ↔ "E"%char ∈ Str.chars flags).

(** What one line gives: its descriptor, or nothing when it has none. *)
Definition line_yields (flag_field : string → option string)
    (line : string) (o : option PartClear) : Prop :=
  match o with
  | Some p => descriptor_of flag_field line p
  | None => ∀ p, ¬ descriptor_of flag_field line p
  end.

(** The result for [info] is made line by line, in line order: every
    line that has a descriptor gives it, every other line gives
    nothing. *)
Definition parses_line_by_line (flag_field : string → option string)
    (info : string) : Prop :=
  ∃ picks : list (option PartClear),
    Forall2 (line_yields flag_field) (listing_lines info) picks
    ∧ utils_parse.getPartsToClear info = omap id picks.

(** * Registering an image again *)

(** After a call of [processPNORImage] started in [w] on [self], the
    entity stored under [id] is in state [st]. *)
Definition entity_state_after (env : Env) (self : ItemUpdaterStatic) (w : World)
    (id : string) (st : Activations) : Prop :=
  ∃ self' w' entity,
    ItemUpdaterStatic_.processPNORImage env self w = (Returned self', w')
    ∧ activations self' !! id = Some entity
    ∧ activation entity = st.

(** Version files whose id is the one [sample_updater] holds. *)
Definition blob_feedbeef_full : string :=
  "feedbeef-2.0" +:+ String newline "buildroot-2021.02".
Definition blob_feedbeef_version_only : string := "feedbeef-2.0".

(** An updater that holds one Active image, registered as
    [processPNORImage] registers it. *)
Definition sample_updater_active : ItemUpdaterStatic :=
  mkItemUpdaterStatic
    {["feedbeef" :=
        mkActivationStatic "/xyz/openbmc_project/software/feedbeef" "feedbeef"
          "buildroot-2021.02" Active
          [("inventory", "activation", "/xyz/openbmc_project/inventory/system/chassis")]
          (Some (mkRedundancyPriority "/xyz/openbmc_project/software/feedbeef" 0%Z))]}
    {["feedbeef" :=
        mkVersion "/xyz/openbmc_project/software/feedbeef" "feedbeef"
                  "feedbeef-2.0" Host "" true]}
    "feedbeef".



(** * Facts about std::string and streams *)

Section StringFacts.

Lemma find_elem_of c s : Str.find c s ≠ None ↔ c ∈ Str.chars s.
Proof.
  induction s as [|a s IH]; simpl.
  - split; [congruence | intros H; inversion H].
  - destruct (Ascii.eqb_spec a c) as [->|Hne].
    + split; [intros _; left | congruence].
    + rewrite elem_of_cons, <- IH.
      destruct (Str.find c s) as [i|].
      * split; [intros _; right|]; congruence.
      * split; [congruence | intros [?|?]; congruence].
Qed.

Lemma find_Some_elem_of c s i : Str.find c s = Some i → c ∈ Str.chars s.
Proof. intros H. apply find_elem_of. congruence. Qed.

Lemma substr_from_add n m s :
  Str.substr_from (n + m) s = Str.substr_from m (Str.substr_from n s).
Proof.
  revert s. induction n as [|n IH]; intros s; simpl; [done|].
  destruct s; simpl; [by destruct m | apply IH].
Qed.

Lemma substr_from_length s : Str.substr_from (String.length s) s = "".
Proof. induction s; simpl; auto. Qed.

Lemma substr_from_empty n : Str.substr_from n "" = "".
Proof. by destruct n. Qed.

Lemma length_substr_from n s :
  String.length (Str.substr_from n s) = String.length s - n.
Proof.
  revert s. induction n as [|n IH]; intros [|a s]; simpl; auto with lia.
Qed.

Lemma find_lt c s k : Str.find c s = Some k → k < String.length s.
Proof.
  revert k. induction s as [|a s IH]; intros k; simpl; [done|].
  destruct (Ascii.eqb a c); [intros [= <-]; lia|].
  destruct (Str.find c s) as [i|]; [|done].
  intros [= <-]. specialize (IH i eq_refl). lia.
Qed.

Lemma listing_lines_find_Some s k :
  Str.find newline s = Some k →
  listing_lines s = Str.substr_to k s :: listing_lines (Str.substr_from (S k) s).
Proof.
  revert k. induction s as [|a s IH]; intros k; simpl; [done|].
  destruct (Ascii.eqb a newline); [by intros [= <-]|].
  destruct (Str.find newline s) as [i|]; [|done].
  intros [= <-]. by rewrite (IH i eq_refl).
Qed.

Lemma listing_lines_find_None s :
  Str.find newline s = None → s ≠ "" → listing_lines s = [s].
Proof.
  induction s as [|a s IH]; simpl; [done|].
  destruct (Ascii.eqb a newline); [done|].
  destruct (Str.find newline s) as [i|] eqn:Hf; [done|].
  intros _ _. destruct s as [|b s]; [done|].
  by rewrite IH.
Qed.

End StringFacts.

Section ParseFacts.
Import utils_parse.

Lemma loop_body_app line ret : loop_body line ret = ret ++ loop_body line [].
Proof.
  unfold loop_body.
  repeat (case_match; rewrite ?app_nil_r; try done).
Qed.

(** A turn of the body adds nothing, or one descriptor of the line. *)
Lemma loop_body_candidate line :
  loop_body line [] = []
  ∨ ∃ p, loop_body line [] = [p] ∧ candidate_of flags_from_bracket line p.
Proof.
  unfold loop_body.
  destruct (Str.find "[" line) as [pos|] eqn:Hb; [|by left].
  destruct (Str.find "F" _) as [posF|] eqn:HF; [|by left].
  repeat (case_match; [|by left]).
  right. eexists; split; [reflexivity|].
  exists (Str.substr_from pos line). unfold flags_from_bracket. rewrite Hb.
  split; [done|]. split; [by eapply find_Some_elem_of|].
  simpl. rewrite bool_decide_eq_true. apply find_elem_of.
Qed.

(** With enough fuel the loop runs the body over every line that is
    left in the stream. *)
Lemma loop_lines fuel data pos line ret :
  String.length (Str.substr_from pos data) < fuel →
  loop fuel (stream_at data pos) line ret
  = fold_left (λ r l, loop_body l r) (listing_lines (Str.substr_from pos data)) ret.
Proof.
  revert pos line ret. induction fuel as [|fuel IH]; intros pos line ret Hlen; [lia|].
  simpl. unfold Ios.getline, Ios.good, Ios.remaining; simpl.
  destruct (Str.find newline (Str.substr_from pos data)) as [k|] eqn:Hf.
  - simpl. rewrite (listing_lines_find_Some _ _ Hf). simpl.
    change (mkIstream data (pos + S k) false false) with (stream_at data (pos + S k)).
    rewrite IH, substr_from_add; [done|].
    rewrite substr_from_add, length_substr_from.
    apply find_lt in Hf. lia.
  - remember (Str.substr_from pos data) as r eqn:Hr.
    destruct r as [|a r]; [done|].
    rewrite (listing_lines_find_None _ Hf) by done.
    simpl. by destruct fuel.
Qed.

Lemma getPartsToClear_lines info :
  getPartsToClear info
  = fold_left (λ r l, loop_body l r) (listing_lines info) [].
Proof.
  unfold getPartsToClear, Ios.open.
  change (mkIstream info 0 false false) with (stream_at info 0).
  rewrite loop_lines; simpl; [done | lia].
Qed.

End ParseFacts.

(** * The partition inventory parser *)

(** The example line of the source comment. *)
Example getPartsToClear_MVPD :
  utils_parse.getPartsToClear
    "ID=06 MVPD 0x0012d000..0x001bd000 (actual=0x00090000) [E--P--F-C-]"
  = [("MVPD", true)].
Proof. reflexivity. Qed.

Example getPartsToClear_no_F :
  utils_parse.getPartsToClear
    "ID=11 HBB 0x00205000..0x00305000 (actual=0x00100000) [EL--------]"
  = [].
Proof. reflexivity. Qed.

Example getPartsToClear_sample :
  utils_parse.getPartsToClear sample_listing = [("MVPD", true); ("CVPD", false)].
Proof. reflexivity. Qed.

(** ** Lines of the documented format *)

Section DocumentedLines.

Lemma app_String a s t : String a s +:+ t = String a (s +:+ t).
Proof. reflexivity. Qed.

Lemma string_app_assoc s t u : (s +:+ t) +:+ u = s +:+ (t +:+ u).
Proof. induction s as [|a s IH]; [done|]. by rewrite !app_String, IH. Qed.

Lemma chars_app s t : Str.chars (s +:+ t) = Str.chars s ++ Str.chars t.
Proof.
  induction s as [|a s IH]; [done|].
  rewrite app_String. unfold Str.chars in *. cbn. by rewrite IH.
Qed.

Lemma chars_spaces n : Str.chars (spaces n) = replicate n space.
Proof. induction n as [|n IH]; [done|]. unfold Str.chars in *. cbn. by rewrite IH. Qed.

(** The first occurrence of a character. *)
Lemma find_first_occurrence c pre t :
  c ∉ Str.chars pre → Str.find c (pre +:+ String c t) = Some (String.length pre).
Proof.
  induction pre as [|a pre IH]; intros Hnot.
  - change ("" +:+ String c t) with (String c t). cbn [Str.find].
    by rewrite Ascii.eqb_refl.
  - rewrite app_String. cbn [Str.find String.length].
    apply not_elem_of_cons in Hnot as [Hne Hnot].
    destruct (Ascii.eqb_spec a c) as [->|_]; [done|].
    by rewrite IH.
Qed.

Lemma substr_from_app s t : Str.substr_from (String.length s) (s +:+ t) = t.
Proof. induction s as [|a s IH]; [done|]. by rewrite app_String. Qed.

Lemma substr_to_app_length s t : Str.substr_to (String.length s) (s +:+ t) = s.
Proof.
  induction s as [|a s IH]; [done|].
  rewrite app_String. cbn [String.length Str.substr_to]. by rewrite IH.
Qed.

Lemma length_spaces n : String.length (spaces n) = n.
Proof. induction n as [|n IH]; [done|]. cbn. by rewrite IH. Qed.

Lemma find_first_not_of_spaces n a t :
  a ≠ space →
  Str.find_first_not_of space (spaces n +:+ String a t) = Some n.
Proof.
  intros Hne. induction n as [|n IH].
  - change (spaces 0 +:+ String a t) with (String a t).
    cbn [Str.find_first_not_of]. by destruct (Ascii.eqb_spec a space).
  - cbn [spaces]. rewrite app_String. cbn [Str.find_first_not_of].
    by rewrite Ascii.eqb_refl, IH.
Qed.

(** A line [<id> <name> <addresses> [<flags>...]]: an id without space or
    '[', at least one space, a name without space or '[', a space, then
    text whose first '[' opens the flag field.  When an F occurs from that
    '[' on, the body adds the name, with the ECC bit telling whether an E
    occurs there too. *)
Lemma loop_body_documented_line (id name addrs flags : string) (a : ascii)
    (n : nat) (ret : list PartClear) :
  space ∉ Str.chars id → "["%char ∉ Str.chars id →
  space ∉ Str.chars (String a name) → "["%char ∉ Str.chars (String a name) →
  "["%char ∉ Str.chars addrs →
  "F"%char ∈ Str.chars (String "[" flags) →
  utils_parse.loop_body
    (id +:+ spaces (S n) +:+ String a name +:+ String space (addrs +:+ String "[" flags))
    ret
  = ret ++ [(String a name, bool_decide ("E"%char ∈ Str.chars (String "[" flags)))].
Proof.
  intros Hid_sp Hid_br Hname_sp Hname_br Haddrs HF.
  assert (Ha : a ≠ space).
  { intros ->. apply Hname_sp. left. }
  set (name' := String a name) in *.
  set (tail := addrs +:+ String "[" flags).
  set (line := id +:+ spaces (S n) +:+ name' +:+ String space tail).
  (* the first '[' opens the flag field *)
  assert (Hline : line
    = (id +:+ spaces (S n) +:+ name' +:+ String space addrs) +:+ String "[" flags).
  { subst line tail. by rewrite !string_app_assoc. }
  assert (Hpre : "["%char ∉ Str.chars (id +:+ spaces (S n) +:+ name' +:+ String space addrs)).
  { rewrite !chars_app, chars_spaces, !not_elem_of_app.
    split; [done|]. split; [|split; [done|]].
    - intros [? _]%elem_of_replicate. done.
    - apply not_elem_of_cons. by split. }
  assert (Hbr : Str.find "["%char line
                = Some (String.length (id +:+ spaces (S n) +:+ name' +:+ String space addrs))).
  { rewrite Hline. by apply find_first_occurrence. }
  assert (Hflags : Str.substr_from
            (String.length (id +:+ spaces (S n) +:+ name' +:+ String space addrs)) line
          = String "[" flags).
  { rewrite Hline. apply substr_from_app. }
  (* the name stands between the first run of spaces and the next space *)
  assert (Hsp1 : Str.find space line = Some (String.length id)).
  { subst line. cbn [spaces]. rewrite app_String. by apply find_first_occurrence. }
  assert (Hline1 : Str.substr_from (String.length id) line
                   = spaces (S n) +:+ String a (name +:+ String space tail)).
  { subst line. by rewrite substr_from_app. }
  assert (Hline2 : Str.substr_from (S n) (spaces (S n) +:+ String a (name +:+ String space tail))
                   = name' +:+ String space tail).
  { rewrite <- (length_spaces (S n)) at 1. by rewrite substr_from_app. }
  assert (Hsp3 : Str.find space (name' +:+ String space tail) = Some (String.length name')).
  { by apply find_first_occurrence. }
  unfold utils_parse.loop_body, Str.find_first_of, Str.substr.
  rewrite Hbr. cbv beta iota zeta. rewrite Hflags.
  destruct (Str.find "F" (String "[" flags)) as [posF|] eqn:HfF;
    [|by apply find_elem_of in HF].
  rewrite Hsp1. cbv beta iota zeta. rewrite Hline1.
  rewrite find_first_not_of_spaces by done. rewrite Hline2, Hsp3.
  cbn [Str.substr_from]. rewrite substr_to_app_length.
  do 3 f_equal. apply bool_decide_ext, find_elem_of.
Qed.

End DocumentedLines.

(** * Decoding the version blob *)

Section ReadVersion.
Import utils.

Lemma substr_from_ge n s : String.length s ≤ n → Str.substr_from n s = "".
Proof.
  revert s. induction n as [|n IH]; intros [|a s]; simpl; auto with lia.
Qed.

Lemma substr_to_app n s t :
  n ≤ String.length s → Str.substr_to n (s +:+ t) = Str.substr_to n s.
Proof.
  revert s. induction n as [|n IH]; intros [|a s]; simpl; auto with lia.
  intros Hle. cbn. f_equal. apply IH. lia.
Qed.

Lemma substr_to_idemp n s : Str.substr_to n (Str.substr_to n s) = Str.substr_to n s.
Proof. revert s. induction n as [|n IH]; intros [|a s]; simpl; by f_equal. Qed.

Lemma length_substr_to n s :
  String.length (Str.substr_to n s) = n `min` String.length s.
Proof. revert s. induction n as [|n IH]; intros [|a s]; simpl; auto. Qed.

Lemma has_magic_length blob : has_magic blob = true → 4 ≤ String.length blob.
Proof.
  unfold has_magic. rewrite bool_decide_eq_true. intros H.
  apply (f_equal String.length) in H. rewrite length_substr_to in H.
  change (String.length MAGIC) with 4 in H. lia.
Qed.

(** Reading up to a NUL with [getline] gives the C string at the get
    position. *)
Lemma getline_NUL_c_str data pos str :
  (Ios.getline NUL (stream_at data pos) str).2 = c_str (Str.substr_from pos data).
Proof.
  unfold Ios.getline, Ios.good, Ios.remaining; simpl.
  generalize (Str.substr_from pos data) as r. intros r.
  assert (Hr : match Str.find NUL r with
               | Some k => Str.substr_to k r
               | None => r
               end = c_str r).
  { induction r as [|a r IH]; simpl; [done|].
    destruct (Ascii.eqb a NUL); [done|].
    destruct (Str.find NUL r); simpl; by f_equal. }
  by destruct (Str.find NUL r).
Qed.

(** The bytes put into [magic] by a read that finds four bytes. *)
Lemma read_four blob garbage :
  4 ≤ String.length blob →
  Ios.read MAGIC_SIZE (Ios.open blob) garbage
  = (stream_at blob 4, Str.substr_to 4 blob +:+ Str.substr_from 4 garbage).
Proof.
  intros Hlen. unfold Ios.read, Ios.good, Ios.remaining, Ios.open, MAGIC_SIZE.
  cbn [failbit eofbit sdata gpos negb andb Nat.add].
  change (Str.substr_from 0 blob) with blob.
  destruct (Nat.leb_spec 4 (String.length blob)); [done | lia].
Qed.

Lemma memcmp_read_four blob garbage :
  4 ≤ String.length blob →
  memcmp_eq (Str.substr_to 4 blob +:+ Str.substr_from 4 garbage) MAGIC MAGIC_SIZE
  = has_magic blob.
Proof.
  intros Hlen. unfold memcmp_eq, has_magic, MAGIC_SIZE.
  rewrite substr_to_app by (rewrite length_substr_to; lia).
  by rewrite substr_to_idemp.
Qed.

(** A blob with the magic prefix is decoded from offset 4096. *)
Lemma read_version_magic blob garbage :
  has_magic blob = true →
  read_version garbage (Ios.open blob) = decoded_from 4096 blob.
Proof.
  intros Hm. pose proof (has_magic_length _ Hm) as Hlen.
  unfold read_version. rewrite read_four by done.
  rewrite memcmp_read_four, Hm by done.
  unfold Ios.seekg_beg, Ios.ignore, Ios.good, Ios.remaining, decoded_from.
  cbn [failbit eofbit sdata gpos stream_at negb andb Nat.add].
  change (Str.substr_from 0 blob) with blob.
  destruct (Nat.leb_spec 4096 (String.length blob)) as [Hle|Hlt].
  - pose proof (getline_NUL_c_str blob 4096 "") as Hg.
    unfold stream_at in Hg. by destruct (Ios.getline _ _ _).
  - rewrite (substr_from_ge 4096) by lia. reflexivity.
Qed.

(** A blob of four bytes or more without the magic prefix is decoded
    from offset 0. *)
Lemma read_version_plain blob garbage :
  4 ≤ String.length blob →
  has_magic blob = false →
  read_version garbage (Ios.open blob) = decoded_from 0 blob.
Proof.
  intros Hlen Hm.
  unfold read_version. rewrite read_four by done.
  rewrite memcmp_read_four, Hm by done.
  unfold Ios.seekg_beg, decoded_from.
  cbn [failbit eofbit sdata gpos stream_at].
  pose proof (getline_NUL_c_str blob 0 "") as Hg.
  unfold stream_at in Hg. by destruct (Ios.getline _ _ _).
Qed.

(** A blob of fewer than four bytes leaves the stream failed after the
    read of the magic, and nothing is decoded, whatever [magic] held. *)
Lemma read_version_short blob garbage :
  String.length blob < 4 →
  read_version garbage (Ios.open blob) = "".
Proof.
  intros Hlen.
  unfold read_version, Ios.read, Ios.good, Ios.remaining, Ios.open, MAGIC_SIZE.
  cbn [failbit eofbit sdata gpos negb andb].
  change (Str.substr_from 0 blob) with blob.
  destruct (Nat.leb_spec 4 (String.length blob)); [lia|].
  unfold Ios.seekg_beg. cbn [failbit eofbit sdata gpos].
  by destruct (memcmp_eq _ _ _).
Qed.

(** A version file that could not be opened decodes to nothing. *)
Lemma read_version_unopened garbage :
  read_version garbage Ios.open_failed = "".
Proof.
  unfold read_version, Ios.read, Ios.good, Ios.open_failed.
  cbn [failbit eofbit sdata gpos negb andb Ios.set_fail].
  unfold Ios.seekg_beg. cbn [failbit eofbit sdata gpos].
  by destruct (memcmp_eq _ _ _).
Qed.

End ReadVersion.

(** C4 at a three-byte version file without a NUL: the blob has no magic
    prefix and its text from offset 0 to the end of the data is "abc",
    yet nothing is decoded: the read of four bytes sets failbit, the seek
    back to the start is refused, and [getline] extracts nothing.
    [getPNORVersion] hands the empty string to its caller. *)
Theorem read_version_three_bytes (garbage : string) :
  has_magic "abc" = false
  ∧ decoded_from 0 "abc" = "abc"
  ∧ utils.read_version garbage (Ios.open "abc") = ""
  ∧ (utils.getPNORVersion (env_version_file "abc") world0).1 = Returned "".
Proof.
  split; [reflexivity|]. split; [reflexivity|]. split; [|reflexivity].
  apply read_version_short. simpl. lia.
Qed.

(** * Running the tool *)

Section Runs.
Variable env : Env.

Lemma after_after w evs evs' : after (after w evs) evs' = after w (evs ++ evs').
Proof. unfold after; simpl. by rewrite app_assoc. Qed.

Lemma after_nil w : after w [] = w.
Proof. destruct w. unfold after; simpl. by rewrite app_nil_r. Qed.

Lemma pflash_run ts w :
  utils.pflash env ts w
  = match popen_result env (trace w) (utils.concat_string ("pflash" :: ts)) with
    | Some (rc, result) =>
        (Returned (rc, result), after w [EvPopen (utils.concat_string ("pflash" :: ts))])
    | None =>
        (Thrown "popen() failed!", after w [EvPopen (utils.concat_string ("pflash" :: ts))])
    end.
Proof.
  unfold utils.pflash, mbind, M_bind, history, emit, throw, mret, M_ret, after.
  cbn [trace tmpdirs].
  by destruct (popen_result env _ _) as [[rc result]|].
Qed.

Lemma pnorClear_run part ecc w :
  utils.pnorClear env part ecc w
  = match popen_result env (trace w) (clear_cmd (part, ecc)) with
    | Some (rc, _) =>
        (Returned tt, after w [EvPopen (clear_cmd (part, ecc)); clear_log part rc])
    | None => (Thrown "popen() failed!", after w [EvPopen (clear_cmd (part, ecc))])
    end.
Proof.
  unfold utils.pnorClear. unfold mbind at 1. unfold M_bind. rewrite pflash_run.
  change (utils.concat_string ("pflash" :: _)) with (clear_cmd (part, ecc)).
  destruct (popen_result env _ _) as [[rc result]|]; [|done].
  unfold clear_log, log, emit, after. cbn [trace tmpdirs].
  case_bool_decide; cbn [trace tmpdirs]; by rewrite <- app_assoc.
Qed.

(** When the tool can always be started, the loop of [reset] attempts
    every clear, in order, whatever the return codes are. *)
Lemma clear_loop_run (parts : list PartClear) w :
  popen_succeeds env →
  ∃ mid, for_each (λ p : PartClear, utils.pnorClear env p.1 p.2) parts w
         = (Returned tt, after w mid)
         ∧ popen_cmds mid = clear_cmd <$> parts
         ∧ Forall is_clear_event mid.
Proof.
  intros Hok. revert w. induction parts as [|[part ecc] parts IH]; intros w.
  - exists []. by rewrite after_nil.
  - cbn [for_each]. unfold mbind, M_bind. rewrite pnorClear_run.
    cbn [fst snd].
    destruct (popen_result env (trace w) (clear_cmd (part, ecc)))
      as [[rc out]|] eqn:Hp; [|by apply Hok in Hp].
    destruct (IH (after w [EvPopen (clear_cmd (part, ecc)); clear_log part rc]))
      as (mid & -> & Hcmds & Hall).
    exists ([EvPopen (clear_cmd (part, ecc)); clear_log part rc] ++ mid).
    rewrite after_after. split; [done|]. split.
    + unfold popen_cmds in *. cbn. unfold clear_log.
      case_bool_decide; cbn; by rewrite Hcmds.
    + repeat constructor; [|done]. unfold clear_log. by case_bool_decide.
Qed.

Lemma getPartsToClear_run w :
  utils.getPartsToClear env w
  = match popen_result env (trace w) list_cmd with
    | Some (_, pflashInfo) =>
        (Returned (utils_parse.getPartsToClear pflashInfo), after w [EvPopen list_cmd])
    | None => (Thrown "popen() failed!", after w [EvPopen list_cmd])
    end.
Proof.
  unfold utils.getPartsToClear, mbind, M_bind. rewrite pflash_run.
  change (utils.concat_string ("pflash" :: _)) with list_cmd.
  by destruct (popen_result env _ _) as [[rc result]|].
Qed.

Lemma is_clear_event_not_suspend mid :
  Forall is_clear_event mid → (EvHiomapdSuspend ∉ mid) ∧ (EvHiomapdResume ∉ mid).
Proof.
  intros Hall. split; intros Hin;
    by apply (proj1 (Forall_forall _ _) Hall) in Hin.
Qed.

Lemma reset_run w :
  popen_succeeds env →
  ∃ mid, ItemUpdaterStatic_.reset env w
         = (Returned tt,
            after w ([EvPopen list_cmd; EvHiomapdSuspend] ++ mid ++ [EvHiomapdResume]))
         ∧ popen_cmds mid = clear_cmd <$> reset_candidates env w
         ∧ Forall is_clear_event mid.
Proof.
  intros Hok. unfold reset_candidates, ItemUpdaterStatic_.reset.
  unfold mbind, M_bind. rewrite getPartsToClear_run.
  destruct (popen_result env (trace w) list_cmd) as [[rc info]|] eqn:Hl;
    [|by apply Hok in Hl].
  unfold utils.hiomapdSuspend, emit. cbn [trace tmpdirs after].
  destruct (clear_loop_run (utils_parse.getPartsToClear info)
              (after w [EvPopen list_cmd; EvHiomapdSuspend]) Hok)
    as (mid & Hrun & Hcmds & Hall).
  unfold after in Hrun; cbn [trace tmpdirs] in Hrun.
  rewrite <- app_assoc. cbn [app]. rewrite Hrun.
  unfold utils.hiomapdResume, emit, after. cbn [trace tmpdirs].
  exists mid. split; [|done]. by rewrite <- !app_assoc.
Qed.

End Runs.

(** * Factory reset *)

(** C1, as the source has it: whenever the tool can be started for every
    call (popen never returns NULL), a factory reset returns normally and
    its trace is the listing query, one suspend, a clear attempted for
    every candidate in listing order whatever the exit codes of the
    clears are (also with no candidate at all), and one resume at the
    end. *)
Theorem reset_bracketed (env : Env) (w : World) :
  popen_succeeds env →
  (ItemUpdaterStatic_.reset env w).1 = Returned tt ∧ reset_bracket env w.
Proof.
  intros Hok. destruct (reset_run env w Hok) as (mid & Hrun & Hcmds & Hall).
  unfold reset_bracket. rewrite Hrun. split; [done|].
  exists mid. destruct (is_clear_event_not_suspend _ Hall) as [Hs Hr].
  by cbn [snd after trace].
Qed.

(** The sample run: both clears fail with status 1 and are logged, and
    the resume still follows. *)
Example reset_with_failing_clears :
  ItemUpdaterStatic_.reset env_clears_fail world0
  = (Returned tt,
     after world0
       [EvPopen list_cmd; EvHiomapdSuspend;
        EvPopen (clear_cmd ("MVPD", true)); clear_log "MVPD" 1;
        EvPopen (clear_cmd ("CVPD", false)); clear_log "CVPD" 1;
        EvHiomapdResume]).
Proof. reflexivity. Qed.

Lemma reset_bracketed_witness :
  (ItemUpdaterStatic_.reset env_clears_fail world0).1 = Returned tt
  ∧ reset_bracket env_clears_fail world0.
Proof.
  apply (reset_bracketed env_clears_fail world0).
  intros h cmd. cbn. unfold popen_clears_fail. by case_bool_decide.
Defined.

(** C1, as stated, fails: when popen returns NULL for the first clear,
    the exception of [pflash] leaves [reset] after the suspend and before
    the resume. *)
Lemma reset_skips_resume_when_popen_fails :
  ItemUpdaterStatic_.reset env_clears_do_not_start world0
  = (Thrown "popen() failed!",
     after world0 [EvPopen list_cmd; EvHiomapdSuspend;
                   EvPopen (clear_cmd ("MVPD", true))])
  ∧ ¬ reset_bracket env_clears_do_not_start world0.
Proof.
  assert (Hrun : ItemUpdaterStatic_.reset env_clears_do_not_start world0
    = (Thrown "popen() failed!",
       after world0 [EvPopen list_cmd; EvHiomapdSuspend;
                     EvPopen (clear_cmd ("MVPD", true))])) by reflexivity.
  split; [exact Hrun|].
  intros (mid & Htr & _). rewrite Hrun in Htr.
  cbn [snd after trace world0 app] in Htr.
  injection Htr as Htr.
  destruct mid as [|e1 [|e2 mid]]; cbn in Htr; [discriminate..|].
  injection Htr as _ Htr. by destruct mid.
Qed.

(** * Guard reset *)

Lemma gard_reset_run (env : Env) (w : World) :
  GardResetStatic.reset env w
  = match popen_result env (trace w ++ [EvHiomapdSuspend]) (clear_cmd ("GUARD", true)) with
    | Some (rc, _) =>
        (Returned tt,
         after w [EvHiomapdSuspend; EvPopen (clear_cmd ("GUARD", true));
                  clear_log "GUARD" rc; EvHiomapdResume])
    | None =>
        (Thrown "popen() failed!",
         after w [EvHiomapdSuspend; EvPopen (clear_cmd ("GUARD", true))])
    end.
Proof.
  unfold GardResetStatic.reset, utils.pnorClear_default, mbind, M_bind.
  unfold utils.hiomapdSuspend at 1. unfold emit at 1.
  rewrite pnorClear_run. cbn [trace tmpdirs].
  destruct (popen_result env _ _) as [[rc out]|].
  - unfold utils.hiomapdResume, emit, after. cbn [trace tmpdirs].
    by rewrite <- !app_assoc.
  - unfold after. cbn [trace tmpdirs]. by rewrite <- !app_assoc.
Qed.

(** C10, as the source has it: whenever the tool can be started, the
    guard reset returns normally and does exactly this: one suspend, one
    clear of the partition named GUARD in the ECC mode (-c, the default of
    [pnorClear]) with its log line, one resume; the listing is never
    queried, and the exit code of the clear changes only the log line. *)
Theorem gard_reset_bracketed (env : Env) (w : World) :
  popen_succeeds env →
  (GardResetStatic.reset env w).1 = Returned tt ∧ gard_bracket env w.
Proof.
  intros Hok. unfold gard_bracket. rewrite gard_reset_run.
  destruct (popen_result env _ _) as [[rc out]|] eqn:Hp; [|by apply Hok in Hp].
  split; [done|]. cbn [snd after trace]. unfold clear_log.
  case_bool_decide; by eexists _, _, _.
Qed.

Lemma gard_reset_bracketed_witness :
  (GardResetStatic.reset env_clears_fail world0).1 = Returned tt
  ∧ gard_bracket env_clears_fail world0.
Proof.
  apply (gard_reset_bracketed env_clears_fail world0).
  intros h cmd. cbn. unfold popen_clears_fail. by case_bool_decide.
Defined.

(** C10, as stated, fails: when popen returns NULL, nothing is cleared
    and the exception of [pflash] leaves [reset] before the resume. *)
Lemma gard_reset_skips_resume_when_popen_fails :
  GardResetStatic.reset env_tool_never_starts world0
  = (Thrown "popen() failed!",
     after world0 [EvHiomapdSuspend; EvPopen (clear_cmd ("GUARD", true))])
  ∧ ¬ gard_bracket env_tool_never_starts world0.
Proof.
  split; [reflexivity|].
  intros (lvl & msg & fields & Htr). discriminate Htr.
Qed.

(** * Reading the version *)

Section GetVersion.
Variable env : Env.

Lemma bind_fs_temp_directory_path {B : Type} (k : string → M B) w :
  temp_directory_path_error env (trace w) = None →
  (utils.fs_temp_directory_path env ≫= k) w = k (temp_directory_path env) w.
Proof.
  intros Htmp. unfold utils.fs_temp_directory_path, mbind, M_bind, history.
  by rewrite Htmp.
Qed.

(** The throwing [fs::temp_directory_path()] ends the read at once. *)
Lemma getPNORVersion_no_tmp w what :
  temp_directory_path_error env (trace w) = Some what →
  utils.getPNORVersion env w = (Thrown what, w).
Proof.
  intros Htmp.
  unfold utils.getPNORVersion, utils.fs_temp_directory_path, mbind, M_bind, history.
  by rewrite Htmp.
Qed.

Lemma getPNORVersion_no_tmpdir w :
  temp_directory_path_error env (trace w) = None →
  mkdtemp_result env (trace w) (tmp_template env) = None →
  utils.getPNORVersion env w
  = (Returned "",
     after w [EvMkdtemp (tmp_template env); EvLog ERR "Failed to create temp dir" []]).
Proof.
  intros Htmp Hmk.
  unfold utils.getPNORVersion. rewrite bind_fs_temp_directory_path by done.
  unfold utils.mkdtemp, mbind, M_bind, history, emit, log, emit.
  cbn [trace tmpdirs]. fold (tmp_template env). rewrite Hmk.
  unfold mret, M_ret, after. cbn [trace tmpdirs]. by rewrite <- app_assoc.
Qed.

(** From the call of pflash on: what a read does once [d] is made. *)
Lemma getPNORVersion_tmpdir w d :
  temp_directory_path_error env (trace w) = None →
  mkdtemp_result env (trace w) (tmp_template env) = Some d →
  let w1 := made_tmpdir env w d in
  let cmd := read_cmd (path_append d "version") in
  utils.getPNORVersion env w
  = match popen_result env (trace w1) cmd with
    | None => (Thrown "popen() failed!", after w1 [EvPopen cmd])
    | Some (rc, _) =>
        if bool_decide (rc ≠ 0%Z) then
          (Returned "",
           after w1 [EvPopen cmd;
                     EvLog ERR "Failed to read VERSION" [FieldInt "RETURNCODE" rc]])
        else
          let w2 := after w1 [EvPopen cmd; EvOpen (path_append d "version")] in
          let f := match file_content env (trace w1 ++ [EvPopen cmd])
                                      (path_append d "version") with
                   | Some bytes => Ios.open bytes
                   | None => Ios.open_failed
                   end in
          let version := utils.read_version (uninitialised env) f in
          match remove_all_error env (trace w2) d with
          | None =>
              (Returned version,
               mkWorld (trace w2 ++ [EvRemoveAll d]) (tmpdirs w2 ∖ {[d]}))
          | Some msg =>
              (Returned version,
               after w2 [EvRemoveAll d;
                         EvLog ERR "Failed to remove temp dir"
                               [FieldStr "DIR" d; FieldStr "ERR" msg]])
          end
    end.
Proof.
  intros Htmp Hmk w1 cmd. subst w1 cmd.
  unfold utils.getPNORVersion. rewrite bind_fs_temp_directory_path by done.
  unfold mbind at 1. unfold M_bind.
  unfold utils.mkdtemp, mbind, M_bind, history, emit, dir_created.
  cbn [trace tmpdirs]. fold (tmp_template env). rewrite Hmk.
  unfold mret at 1. unfold M_ret.
  rewrite pflash_run. fold (read_cmd (path_append d "version")).
  unfold made_tmpdir, after. cbn [trace tmpdirs].
  destruct (popen_result env _ _) as [[rc out]|]; [|done].
  case_bool_decide as Hrc.
  - unfold log, emit, mret, M_ret. cbn [trace tmpdirs].
    by rewrite <- app_assoc.
  - unfold utils.ifstream_open, utils.remove_all, mbind, M_bind, history, emit,
      dir_removed, log, emit, mret, M_ret.
    cbn [trace tmpdirs].
    destruct (file_content env _ _) as [bytes|];
      cbn [trace tmpdirs]; rewrite <- !app_assoc; cbn [app];
      destruct (remove_all_error env _ _) as [msg|];
      cbn [trace tmpdirs]; by rewrite <- ?app_assoc.
Qed.

End GetVersion.

Lemma popen_cmds_app evs evs' : popen_cmds (evs ++ evs') = popen_cmds evs ++ popen_cmds evs'.
Proof. apply omap_app. Qed.

Lemma opened_files_app evs evs' :
  opened_files (evs ++ evs') = opened_files evs ++ opened_files evs'.
Proof. apply omap_app. Qed.

(** C2, as the source has it: [getPNORVersion] returns the empty string
    when the scratch directory cannot be created (and then starts no
    subprocess), when the subprocess exits with a non-zero status (and
    then opens no file), and when the version file cannot be opened.  Two
    failures reach the caller as exceptions instead: the
    filesystem_error of [fs::temp_directory_path()] when there is no
    directory for temporary files (nothing else has been done then), and
    the runtime_error of [pflash] when the subprocess cannot be started
    at all. *)
Theorem getPNORVersion_failures (env : Env) (w : World) (fl : ReadFailure) :
  occurs env w fl →
  (utils.getPNORVersion env w).1 = failure_result fl
  ∧ skipped fl w (utils.getPNORVersion env w).2.
Proof.
  destruct fl as [what| |d rc out|d out|d]; cbn [occurs failure_result skipped].
  - intros Htmp. by rewrite (getPNORVersion_no_tmp env w what Htmp).
  - intros [Htmp Hmk]. rewrite getPNORVersion_no_tmpdir by done.
    split; [done|]. cbn [snd after trace].
    rewrite popen_cmds_app. cbn. by rewrite app_nil_r.
  - intros ([Htmp Hmk] & Hp & Hrc).
    rewrite (getPNORVersion_tmpdir env w d Htmp Hmk). cbv zeta. rewrite Hp.
    rewrite bool_decide_eq_true_2 by done.
    split; [done|]. cbn [snd after trace made_tmpdir].
    rewrite !opened_files_app. cbn. by rewrite !app_nil_r.
  - intros ([Htmp Hmk] & Hp & Hf).
    rewrite (getPNORVersion_tmpdir env w d Htmp Hmk). cbv zeta. rewrite Hp, Hf.
    rewrite bool_decide_eq_false_2 by (intros H; by apply H).
    rewrite read_version_unopened.
    by destruct (remove_all_error env _ _).
  - intros ([Htmp Hmk] & Hp).
    rewrite (getPNORVersion_tmpdir env w d Htmp Hmk). cbv zeta. rewrite Hp.
    split; [done|]. cbn [snd after trace made_tmpdir].
    rewrite !opened_files_app. cbn. by rewrite !app_nil_r.
Qed.

Lemma getPNORVersion_failures_witness :
  ((utils.getPNORVersion env_read_exits_1 world0).1 = Returned ""
   ∧ opened_files (trace (utils.getPNORVersion env_read_exits_1 world0).2) = [])
  ∧ ((utils.getPNORVersion env_no_tmpdir world0).1 = Returned ""
     ∧ popen_cmds (trace (utils.getPNORVersion env_no_tmpdir world0).2) = [])
  ∧ (utils.getPNORVersion env_tool_never_starts world0).1 = Thrown "popen() failed!"
  ∧ ((utils.getPNORVersion env_no_tmp world0).1 = Thrown temp_directory_path_what
     ∧ (utils.getPNORVersion env_no_tmp world0).2 = world0).
Proof.
  split; [|split; [|split]].
  - apply (getPNORVersion_failures env_read_exits_1 world0
             (ToolExitsNonZero sample_tmpdir 1%Z "")).
    cbn. split; [split; reflexivity|]. split; [reflexivity | lia].
  - apply (getPNORVersion_failures env_no_tmpdir world0 TempDirNotCreated).
    split; reflexivity.
  - apply (getPNORVersion_failures env_tool_never_starts world0
             (ToolNotStarted sample_tmpdir)).
    cbn. split; [split|]; reflexivity.
  - apply (getPNORVersion_failures env_no_tmp world0
             (TempPathNotFound temp_directory_path_what)).
    reflexivity.
Defined.

(** C2, as stated, fails: when popen returns NULL the caller of
    [getPNORVersion] gets the exception, not an empty string. *)
Lemma getPNORVersion_raises_when_popen_fails :
  (utils.getPNORVersion env_tool_never_starts world0).1 = Thrown "popen() failed!"
  ∧ ¬ returns_version env_tool_never_starts world0.
Proof.
  assert (H : (utils.getPNORVersion env_tool_never_starts world0).1
              = Thrown "popen() failed!") by reflexivity.
  split; [exact H|]. intros [v Hv]. rewrite H in Hv. discriminate.
Qed.

(** There is no third way to an exception: every one that leaves
    [getPNORVersion] is that of [fs::temp_directory_path()] or that of
    [pflash]. *)
Lemma getPNORVersion_throws_only (env : Env) (w : World) (what : string) :
  (utils.getPNORVersion env w).1 = Thrown what →
  occurs env w (TempPathNotFound what)
  ∨ (what = "popen() failed!" ∧ ∃ d, occurs env w (ToolNotStarted d)).
Proof.
  destruct (temp_directory_path_error env (trace w)) as [what'|] eqn:Htmp.
  { rewrite (getPNORVersion_no_tmp env w what' Htmp). intros [= <-]. by left. }
  destruct (mkdtemp_result env (trace w) (tmp_template env)) as [d|] eqn:Hmk;
    [|by rewrite getPNORVersion_no_tmpdir].
  rewrite (getPNORVersion_tmpdir env w d Htmp Hmk). cbv zeta.
  destruct (popen_result env _ _) as [[rc out]|] eqn:Hp.
  - case_bool_decide; [done|]. by destruct (remove_all_error env _ _).
  - intros [= <-]. right. split; [done|]. exists d. cbn [occurs]. by rewrite Hp.
Qed.

(** * The scratch directory *)

(** On the path that reads the file, the scratch directory is removed. *)
Lemma getPNORVersion_removes_tmpdir (env : Env) (w : World) (d out : string) :
  temp_directory_path_error env (trace w) = None →
  mkdtemp_result env (trace w) (tmp_template env) = Some d →
  popen_result env (trace (made_tmpdir env w d)) (read_cmd (path_append d "version"))
  = Some (0%Z, out) →
  remove_all_error env
    (trace (made_tmpdir env w d)
     ++ [EvPopen (read_cmd (path_append d "version")); EvOpen (path_append d "version")]) d
  = None →
  (d ∉ tmpdirs (utils.getPNORVersion env w).2)
  ∧ EvRemoveAll d ∈ trace (utils.getPNORVersion env w).2.
Proof.
  intros Htmp Hmk Hp Hrm.
  rewrite (getPNORVersion_tmpdir env w d Htmp Hmk). cbv zeta. rewrite Hp.
  rewrite bool_decide_eq_false_2 by (intros H; by apply H).
  cbn [after trace tmpdirs made_tmpdir] in *. rewrite Hrm.
  cbn [snd trace tmpdirs]. split.
  - intros [_ Hd]%elem_of_difference. by apply Hd, elem_of_singleton.
  - apply elem_of_app. right. by left.
Qed.

(** A removal that fails is logged, and the version is returned all the
    same. *)
Lemma getPNORVersion_removal_failure_logged (env : Env) (w : World)
    (d out msg : string) :
  temp_directory_path_error env (trace w) = None →
  mkdtemp_result env (trace w) (tmp_template env) = Some d →
  popen_result env (trace (made_tmpdir env w d)) (read_cmd (path_append d "version"))
  = Some (0%Z, out) →
  remove_all_error env
    (trace (made_tmpdir env w d)
     ++ [EvPopen (read_cmd (path_append d "version")); EvOpen (path_append d "version")]) d
  = Some msg →
  ∃ version, (utils.getPNORVersion env w).1 = Returned version
    ∧ last (trace (utils.getPNORVersion env w).2)
      = Some (EvLog ERR "Failed to remove temp dir" [FieldStr "DIR" d; FieldStr "ERR" msg]).
Proof.
  intros Htmp Hmk Hp Hrm.
  rewrite (getPNORVersion_tmpdir env w d Htmp Hmk). cbv zeta. rewrite Hp.
  rewrite bool_decide_eq_false_2 by (intros H; by apply H).
  cbn [after trace tmpdirs made_tmpdir] in *. rewrite Hrm.
  eexists. split; [reflexivity|]. cbn [snd trace].
  unfold after at 1. cbn [trace]. by rewrite last_app.
Qed.

(** C8 at a read of VERSION that exits with status 1: [getPNORVersion]
    returns the empty string from inside the [rc != 0] branch, before the
    [fs::remove_all] at the end of the function; the scratch directory
    made by mkdtemp is still there and no removal was attempted. *)
Theorem getPNORVersion_keeps_tmpdir_on_read_failure :
  (utils.getPNORVersion env_read_exits_1 world0).1 = Returned ""
  ∧ trace (utils.getPNORVersion env_read_exits_1 world0).2
    = [EvMkdtemp "/tmp/versionXXXXXX";
       EvPopen (read_cmd "/tmp/versionAb12Cd/version");
       EvLog ERR "Failed to read VERSION" [FieldInt "RETURNCODE" 1]]
  ∧ sample_tmpdir ∈ tmpdirs (utils.getPNORVersion env_read_exits_1 world0).2.
Proof.
  assert (Hrun : utils.getPNORVersion env_read_exits_1 world0
    = (Returned "",
       after (made_tmpdir env_read_exits_1 world0 sample_tmpdir)
         [EvPopen (read_cmd "/tmp/versionAb12Cd/version");
          EvLog ERR "Failed to read VERSION" [FieldInt "RETURNCODE" 1]]))
    by reflexivity.
  rewrite Hrun. split; [reflexivity|]. split; [reflexivity|].
  cbn [snd after tmpdirs made_tmpdir].
  by apply elem_of_union_l, elem_of_singleton.
Qed.

(** The same version file read with success: the directory is gone. *)
Example getPNORVersion_success_removes_tmpdir :
  (utils.getPNORVersion (env_version_file "open-power-v2.4") world0).1
  = Returned "open-power-v2.4"
  ∧ (sample_tmpdir
     ∉ tmpdirs (utils.getPNORVersion (env_version_file "open-power-v2.4") world0).2).
Proof.
  split.
  - reflexivity.
  - by apply (getPNORVersion_removes_tmpdir
                (env_version_file "open-power-v2.4") world0 sample_tmpdir "").
Qed.

(** A removal that fails: the version is returned, the failure is
    logged, and the directory stays. *)
Example getPNORVersion_removal_fails :
  utils.getPNORVersion (env_tmpdir_stays blob_version_only) world0
  = (Returned "open-power-v2.4",
     after (made_tmpdir (env_tmpdir_stays blob_version_only) world0 sample_tmpdir)
       [EvPopen (read_cmd "/tmp/versionAb12Cd/version");
        EvOpen "/tmp/versionAb12Cd/version";
        EvRemoveAll sample_tmpdir;
        EvLog ERR "Failed to remove temp dir"
              [FieldStr "DIR" sample_tmpdir; FieldStr "ERR" "Directory not empty"]]).
Proof. reflexivity. Qed.

(** The tool reports success but left no file to open. *)
Example getPNORVersion_no_version_file :
  (utils.getPNORVersion env_no_version_file world0).1 = Returned "".
Proof. reflexivity. Qed.

(** * Processing the image *)

Section ProcessImage.
Variable env : Env.
Import ItemUpdaterStatic_.

(** The entity registered for an image in the given state. *)
Lemma map_insert_fresh {V : Type} (k : string) (v : V) (m : gmap string V) :
  m !! k = None → map_insert k v m = <[k := v]> m.
Proof. intros H. unfold map_insert. by rewrite H. Qed.

Lemma map_insert_present {V : Type} (k : string) (v v' : V) (m : gmap string V) :
  m !! k = Some v' → map_insert k v m = m.
Proof. intros H. unfold map_insert. by rewrite H. Qed.

Lemma updateFunctionalAssociation_run self id w :
  updateFunctionalAssociation self id w
  = (Returned (mkItemUpdaterStatic (activations self) (versions self) id),
     after w [EvUpdateFunctionalAssociation id]).
Proof. reflexivity. Qed.


End ProcessImage.

(** C7: when the id derived from what [getPNORVersion] returned is empty,
    [processPNORImage] returns normally without doing anything more: the
    object, with its registered entities and its functional marker, is as
    before, and the trace holds only the events of the version read. *)
Theorem processPNORImage_empty_id (env : Env) (self : ItemUpdaterStatic)
    (w w1 : World) (fullVersion : string) :
  utils.getPNORVersion env w = (Returned fullVersion, w1) →
  getId env (getVersions env fullVersion).1 = "" →
  ItemUpdaterStatic_.processPNORImage env self w = (Returned self, w1).
Proof.
  intros Hread Hid. unfold ItemUpdaterStatic_.processPNORImage.
  unfold mbind at 1. unfold M_bind. rewrite Hread.
  destruct (getVersions env fullVersion) as [version ext]. cbn [fst] in Hid.
  by rewrite bool_decide_eq_true_2.
Qed.

(** C5, as the source has it: when the version, the extended version and
    the id derived from what [getPNORVersion] returned are all non-empty
    and no entity is registered under the id yet, [processPNORImage] adds
    exactly one entity, under the id: it is Active, carries the
    association to the host inventory item and a redundancy priority of
    0; the active, the updateable and the functional association are
    created for it, in this order, and the functional marker becomes the
    id. *)
Theorem processPNORImage_registers_active (env : Env) (self : ItemUpdaterStatic)
    (w w1 : World) (fullVersion version extendedVersion : string) :
  utils.getPNORVersion env w = (Returned fullVersion, w1) →
  getVersions env fullVersion = (version, extendedVersion) →
  version ≠ "" →
  extendedVersion ≠ "" →
  getId env version ≠ "" →
  activations self !! getId env version = None →
  let id := getId env version in
  let path := image_path env id in
  let entity :=
    mkActivationStatic path id extendedVersion Active
      [(ACTIVATION_FWD_ASSOCIATION env, ACTIVATION_REV_ASSOCIATION env,
        HOST_INVENTORY_PATH env)]
      (Some (mkRedundancyPriority path 0%Z)) in
  ∃ self',
    ItemUpdaterStatic_.processPNORImage env self w
    = (Returned self',
       after w1 [EvCreateActiveAssociation path;
                 EvCreateUpdateableAssociation path;
                 EvUpdateFunctionalAssociation id])
    ∧ activations self' = <[id := entity]> (activations self)
    ∧ size (activations self') = S (size (activations self))
    ∧ functionalVersionId self' = id.
Proof.
  intros Hread Hvers Hv He Hid Hfresh id path entity.
  unfold ItemUpdaterStatic_.processPNORImage.
  unfold mbind at 1. unfold M_bind. rewrite Hread, Hvers. fold id.
  rewrite (bool_decide_eq_false_2 (id = "")) by done.
  rewrite (bool_decide_eq_false_2 (version = "")) by done.
  rewrite (bool_decide_eq_false_2 (extendedVersion = "")) by done.
  rewrite (bool_decide_eq_true_2 (id ≠ "")) by done.
  unfold mbind, M_bind, mret, M_ret.
  rewrite (bool_decide_eq_true_2 (Active = Active)) by done.
  unfold ItemUpdaterStatic_.createActiveAssociation,
    ItemUpdaterStatic_.createUpdateableAssociation, emit.
  cbn [trace tmpdirs app].
  rewrite updateFunctionalAssociation_run. cbn [activations versions].
  rewrite map_insert_fresh by done. rewrite alter_insert_eq.
  eexists. split.
  { unfold after. cbn [trace tmpdirs]. rewrite <- !app_assoc. reflexivity. }
  cbn [activations functionalVersionId].
  split; [done|]. split; [|done]. by apply map_size_insert_None.
Qed.

Lemma processPNORImage_registers_active_witness :
  ∃ self',
    ItemUpdaterStatic_.processPNORImage (env_version_file blob_full) fresh_updater world0
    = (Returned self',
       after world_after_read
         [EvCreateActiveAssociation "/xyz/openbmc_project/software/open-pow";
          EvCreateUpdateableAssociation "/xyz/openbmc_project/software/open-pow";
          EvUpdateFunctionalAssociation "open-pow"])
    ∧ activations self'
      = <["open-pow" :=
           mkActivationStatic "/xyz/openbmc_project/software/open-pow" "open-pow"
             "buildroot-2021.02" Active
             [("inventory", "activation",
               "/xyz/openbmc_project/inventory/system/chassis")]
             (Some (mkRedundancyPriority "/xyz/openbmc_project/software/open-pow" 0%Z))]>
        (activations fresh_updater)
    ∧ size (activations self') = S (size (activations fresh_updater))
    ∧ functionalVersionId self' = "open-pow".
Proof.
  apply (processPNORImage_registers_active (env_version_file blob_full)
           fresh_updater world0 world_after_read blob_full
           "open-power-v2.4" "buildroot-2021.02");
    first [reflexivity | discriminate].
Defined.

(** C6, as the source has it: when the version and the id derived from
    what [getPNORVersion] returned are non-empty, the extended version is
    empty and no entity is registered under the id yet,
    [processPNORImage] adds one entity under the id: it is Invalid, has
    no association and no redundancy priority; the missing extended
    version is logged, no active association is created, and the
    updateable (and the functional) association is. *)
Theorem processPNORImage_registers_invalid (env : Env) (self : ItemUpdaterStatic)
    (w w1 : World) (fullVersion version : string) :
  utils.getPNORVersion env w = (Returned fullVersion, w1) →
  getVersions env fullVersion = (version, "") →
  version ≠ "" →
  getId env version ≠ "" →
  activations self !! getId env version = None →
  let id := getId env version in
  let path := image_path env id in
  let entity := mkActivationStatic path id "" Invalid [] None in
  ∃ self' new,
    ItemUpdaterStatic_.processPNORImage env self w = (Returned self', after w1 new)
    ∧ new = [EvLog ERR "Failed to read extendedVersion" [FieldStr "VERSION" fullVersion];
             EvCreateUpdateableAssociation path;
             EvUpdateFunctionalAssociation id]
    ∧ (EvCreateActiveAssociation path ∉ new)
    ∧ EvCreateUpdateableAssociation path ∈ new
    ∧ activations self' = <[id := entity]> (activations self)
    ∧ size (activations self') = S (size (activations self)).
Proof.
  intros Hread Hvers Hv Hid Hfresh id path entity.
  unfold ItemUpdaterStatic_.processPNORImage.
  unfold mbind at 1. unfold M_bind. rewrite Hread, Hvers. fold id.
  rewrite (bool_decide_eq_false_2 (id = "")) by done.
  rewrite (bool_decide_eq_false_2 (version = "")) by done.
  rewrite (bool_decide_eq_true_2 ("" = "")) by done.
  rewrite (bool_decide_eq_true_2 (id ≠ "")) by done.
  unfold mbind, M_bind, mret, M_ret, log.
  unfold ItemUpdaterStatic_.createUpdateableAssociation, emit.
  rewrite (bool_decide_eq_false_2 (Invalid = Active)) by done.
  cbn [trace tmpdirs app].
  rewrite updateFunctionalAssociation_run. cbn [activations versions].
  rewrite map_insert_fresh by done.
  eexists _, _. split.
  { unfold after. cbn [trace tmpdirs]. rewrite <- !app_assoc. reflexivity. }
  cbn [activations]. split; [done|]. split.
  { intros Hin. repeat (apply elem_of_cons in Hin as [Hin|Hin]; [discriminate|]).
    by apply elem_of_nil in Hin. }
  split; [right; left|]. split; [done|]. by apply map_size_insert_None.
Qed.

Lemma processPNORImage_registers_invalid_witness :
  ∃ self' new,
    ItemUpdaterStatic_.processPNORImage (env_version_file blob_version_only)
                                        fresh_updater world0
    = (Returned self', after world_after_read new)
    ∧ new = [EvLog ERR "Failed to read extendedVersion"
                   [FieldStr "VERSION" blob_version_only];
             EvCreateUpdateableAssociation "/xyz/openbmc_project/software/open-pow";
             EvUpdateFunctionalAssociation "open-pow"]
    ∧ (EvCreateActiveAssociation "/xyz/openbmc_project/software/open-pow" ∉ new)
    ∧ EvCreateUpdateableAssociation "/xyz/openbmc_project/software/open-pow" ∈ new
    ∧ activations self'
      = <["open-pow" :=
           mkActivationStatic "/xyz/openbmc_project/software/open-pow" "open-pow"
             "" Invalid [] None]> (activations fresh_updater)
    ∧ size (activations self') = S (size (activations fresh_updater)).
Proof.
  apply (processPNORImage_registers_invalid (env_version_file blob_version_only)
           fresh_updater world0 world_after_read blob_version_only
           "open-power-v2.4");
    first [reflexivity | discriminate].
Defined.

Lemma processPNORImage_empty_id_witness :
  ItemUpdaterStatic_.processPNORImage (env_version_file blob_erased) fresh_updater world0
  = (Returned fresh_updater, world_after_read).
Proof.
  apply (processPNORImage_empty_id (env_version_file blob_erased) fresh_updater
           world0 world_after_read ""); reflexivity.
Defined.

(** * The functional marker *)

Lemma isVersionFunctional_marker (self : ItemUpdaterStatic) (x : string) :
  ItemUpdaterStatic_.isVersionFunctional self x = true ↔ x = functionalVersionId self.
Proof. unfold ItemUpdaterStatic_.isVersionFunctional. apply bool_decide_eq_true. Qed.

(** [updateFunctionalAssociation] overwrites the marker, whatever it was. *)
Lemma updateFunctionalAssociation_overwrites (self : ItemUpdaterStatic)
    (id : string) (w : World) :
  ∃ self' w', ItemUpdaterStatic_.updateFunctionalAssociation self id w = (Returned self', w')
              ∧ functionalVersionId self' = id.
Proof. eexists _, _. by rewrite updateFunctionalAssociation_run. Qed.



(** * More about the partition inventory parser *)

Section ParserMore.
Import utils_parse.

Lemma fold_loop_body_bind lines ret :
  fold_left (λ r l, loop_body l r) lines ret
  = ret ++ (lines ≫= λ l, loop_body l []).
Proof.
  revert ret. induction lines as [|l lines IH]; intros ret; cbn.
  - by rewrite app_nil_r.
  - rewrite IH, (loop_body_app l ret). by rewrite <- app_assoc.
Qed.

Lemma getPartsToClear_bind info :
  getPartsToClear info = listing_lines info ≫= λ l, loop_body l [].
Proof. by rewrite getPartsToClear_lines, fold_loop_body_bind. Qed.

Lemma chars_cons a s : Str.chars (String a s) = a :: Str.chars s.
Proof. reflexivity. Qed.

Lemma listing_lines_chars s l :
  l ∈ listing_lines s →
  (newline ∉ Str.chars l) ∧ ∀ c, c ∈ Str.chars l → c ∈ Str.chars s.
Proof.
  revert l. induction s as [|a s IH]; intros l; cbn [listing_lines].
  - by intros ?%elem_of_nil.
  - destruct (Ascii.eqb_spec a newline) as [->|Hne].
    + intros [->|Hin]%elem_of_cons.
      * split; [by intros ?%elem_of_nil | by intros c ?%elem_of_nil].
      * destruct (IH l Hin) as [Hnl Hsub]. split; [done|].
        intros c Hc. rewrite chars_cons. right. by apply Hsub.
    + destruct (listing_lines s) as [|l0 ls] eqn:Hls.
      * intros ->%list_elem_of_singleton. split.
        -- rewrite chars_cons. intros [?|?%elem_of_nil]%elem_of_cons; congruence.
        -- intros c. rewrite !chars_cons.
           intros [->|?%elem_of_nil]%elem_of_cons; [left | done].
      * intros [->|Hin]%elem_of_cons.
        -- destruct (IH l0 (list_elem_of_here _ _)) as [Hnl Hsub]. split.
           ++ rewrite chars_cons. intros [?|?]%elem_of_cons; [congruence | done].
           ++ intros c. rewrite !chars_cons.
              intros [->|Hc]%elem_of_cons; [left | right; by apply Hsub].
        -- destruct (IH l (list_elem_of_further _ _ _ Hin)) as [Hnl Hsub].
           split; [done|]. intros c Hc. rewrite chars_cons. right. by apply Hsub.
Qed.

Lemma chars_substr_from n s c :
  c ∈ Str.chars (Str.substr_from n s) → c ∈ Str.chars s.
Proof.
  revert s. induction n as [|n IH]; intros [|a s]; cbn [Str.substr_from]; try done.
  intros Hc. rewrite chars_cons. right. by apply IH.
Qed.

Lemma chars_substr_to n s c :
  c ∈ Str.chars (Str.substr_to n s) → c ∈ Str.chars s.
Proof.
  revert s. induction n as [|n IH]; intros [|a s]; cbn [Str.substr_to]; try done.
  - by intros ?%elem_of_nil.
  - rewrite !chars_cons. intros [->|Hc]%elem_of_cons; [left | right; by apply IH].
Qed.

(** Nothing before the position [find] returns is the character. *)
Lemma find_not_before c s k :
  Str.find c s = Some k → c ∉ Str.chars (Str.substr_to k s).
Proof.
  revert k. induction s as [|a s IH]; intros k; cbn [Str.find]; [done|].
  destruct (Ascii.eqb_spec a c) as [->|Hne].
  - intros [= <-]. by intros ?%elem_of_nil.
  - destruct (Str.find c s) as [i|]; [|done]. intros [= <-].
    cbn [Str.substr_to]. rewrite chars_cons.
    intros [?|?]%elem_of_cons; [congruence | by eapply IH].
Qed.

(** [find_first_not_of] stops on a character that differs. *)
Lemma find_first_not_of_head c s k :
  Str.find_first_not_of c s = Some k →
  ∃ a t, Str.substr_from k s = String a t ∧ a ≠ c.
Proof.
  revert k. induction s as [|a s IH]; intros k; cbn [Str.find_first_not_of]; [done|].
  destruct (Ascii.eqb_spec a c) as [->|Hne].
  - destruct (Str.find_first_not_of c s) as [i|]; [|done]. intros [= <-].
    cbn [Str.substr_from]. by apply IH.
  - intros [= <-]. by exists a, s.
Qed.

(** What a turn of the body adds is a name cut out of the line: it is
    not empty and holds no space. *)
Lemma loop_body_name line p :
  loop_body line [] = [p] →
  p.1 ≠ "" ∧ (space ∉ Str.chars p.1) ∧ ∀ c, c ∈ Str.chars p.1 → c ∈ Str.chars line.
Proof.
  unfold loop_body, Str.find_first_of, Str.substr.
  destruct (Str.find "[" line) as [pos|]; [|done].
  destruct (Str.find "F" _); [|done].
  destruct (Str.find space line) as [pos1|]; [|done].
  destruct (Str.find_first_not_of space _) as [pos2|] eqn:Hnot; [|done].
  destruct (Str.find space (Str.substr_from pos2 _)) as [pos3|] eqn:Hsp; [|done].
  cbn [app Str.substr_from]. intros [= <-]. cbn [fst].
  destruct (find_first_not_of_head _ _ _ Hnot) as (a & t & Hhead & Ha).
  split; [|split].
  - rewrite Hhead in Hsp |- *. cbn [Str.find] in Hsp.
    destruct (Ascii.eqb_spec a space) as [?|_]; [done|].
    destruct (Str.find space t); [|done]. by injection Hsp as <-.
  - by apply find_not_before.
  - intros c Hc%chars_substr_to%chars_substr_from%chars_substr_from. done.
Qed.

Lemma elem_of_getPartsToClear info p :
  p ∈ getPartsToClear info →
  ∃ line, line ∈ listing_lines info ∧ loop_body line [] = [p].
Proof.
  rewrite getPartsToClear_bind. intros (line & Hp & Hline)%list_elem_of_bind.
  exists line. split; [done|].
  destruct (loop_body_candidate line) as [Hnil|(q & Hq & _)].
  - rewrite Hnil in Hp. by apply elem_of_nil in Hp.
  - rewrite Hq in Hp |- *. by apply list_elem_of_singleton in Hp as ->.
Qed.

End ParserMore.

(** * The parser, line by line *)

Section LineByLine.
Import utils_parse.

(** A string splits at the position [find] returns. *)
Lemma find_split c s k :
  Str.find c s = Some k →
  s = Str.substr_to k s +:+ String c (Str.substr_from (S k) s)
  ∧ Str.substr_from k s = String c (Str.substr_from (S k) s).
Proof.
  revert k. induction s as [|a s IH]; intros k; cbn [Str.find]; [done|].
  destruct (Ascii.eqb_spec a c) as [->|Hne].
  - intros [= <-]. by split.
  - destruct (Str.find c s) as [i|]; [|done]. intros [= <-].
    destruct (IH i eq_refl) as [Hs Hfrom].
    change (Str.substr_to (S i) (String a s)) with (String a (Str.substr_to i s)).
    change (Str.substr_from (S (S i)) (String a s)) with (Str.substr_from (S i) s).
    change (Str.substr_from (S i) (String a s)) with (Str.substr_from i s).
    rewrite app_String. split; [by rewrite <- Hs | done].
Qed.

(** What [find_first_not_of] skips is a run of the character. *)
Lemma find_first_not_of_split s k :
  Str.find_first_not_of space s = Some k → s = spaces k +:+ Str.substr_from k s.
Proof.
  revert k. induction s as [|a s IH]; intros k; cbn [Str.find_first_not_of]; [done|].
  destruct (Ascii.eqb_spec a space) as [->|Hne].
  - destruct (Str.find_first_not_of space s) as [i|]; [|done]. intros [= <-].
    cbn [spaces Str.substr_from]. rewrite app_String. by rewrite <- (IH i).
  - by intros [= <-].
Qed.

(** The body of the loop in terms of the two fields it reads. *)
Lemma loop_body_fields line :
  loop_body line []
  = match flags_from_bracket line with
    | Some flags =>
        if bool_decide ("F"%char ∈ Str.chars flags) then
          match name_field line with
          | Some name => [(name, bool_decide ("E"%char ∈ Str.chars flags))]
          | None => []
          end
        else []
    | None => []
    end.
Proof.
  unfold loop_body, flags_from_bracket, name_field.
  destruct (Str.find "[" line) as [pos|]; [|done].
  destruct (Str.find "F" (Str.substr_from pos line)) as [posF|] eqn:HF.
  - rewrite (bool_decide_eq_true_2 ("F"%char ∈ Str.chars (Str.substr_from pos line)))
      by (by eapply find_Some_elem_of).
    destruct (Str.find_first_of space line) as [pos1|]; [|done].
    destruct (Str.find_first_not_of space _) as [pos2|]; [|done].
    destruct (Str.find_first_of space _) as [pos3|]; [|done].
    cbn [app]. do 2 f_equal. apply bool_decide_ext, find_elem_of.
  - rewrite (bool_decide_eq_false_2 ("F"%char ∈ Str.chars (Str.substr_from pos line)));
      [done|].
    intros Hin. by apply find_elem_of in Hin.
Qed.

(** The name the source cuts out is the second field of the line. *)
Lemma name_field_named line name : name_field line = Some name → named line name.
Proof.
  unfold name_field, Str.find_first_of, Str.substr.
  destruct (Str.find space line) as [pos1|] eqn:Hsp1; [|done].
  destruct (find_split _ _ _ Hsp1) as [Hline Hline1]. rewrite Hline1.
  remember (Str.substr_from (S pos1) line) as line1 eqn:Hr1.
  cbn [Str.find_first_not_of]. rewrite Ascii.eqb_refl.
  destruct (Str.find_first_not_of space line1) as [i|] eqn:Hnot; [|done].
  cbn [Str.substr_from].
  destruct (find_first_not_of_head _ _ _ Hnot) as (a & t & Hhead & Ha).
  pose proof (find_first_not_of_split _ _ Hnot) as Hrun.
  destruct (Str.find space (Str.substr_from i line1)) as [pos3|] eqn:Hsp3; [|done].
  intros [= <-].
  destruct (find_split _ _ _ Hsp3) as [Hline2 _].
  exists (Str.substr_to pos1 line), (Str.substr_from (S pos3) (Str.substr_from i line1)), i.
  split; [|split; [|split]].
  - rewrite <- Hline2. cbn [spaces]. rewrite app_String. by rewrite <- Hrun.
  - by apply find_not_before.
  - rewrite Hhead in Hsp3 |- *. cbn [Str.find] in Hsp3.
    destruct (Ascii.eqb_spec a space) as [?|_]; [done|].
    destruct (Str.find space t); [|done]. by injection Hsp3 as <-.
  - by apply find_not_before.
Qed.

Lemma named_name_field line name : named line name → name_field line = Some name.
Proof.
  intros (id & rest & n & -> & Hid & Hne & Hname).
  destruct name as [|a name]; [done|].
  assert (Ha : a ≠ space).
  { intros ->. apply Hname. left. }
  unfold name_field, Str.find_first_of, Str.substr.
  assert (Hsp1 : Str.find space
                   (id +:+ spaces (S n) +:+ String a name +:+ String space rest)
                 = Some (String.length id)).
  { cbn [spaces]. rewrite app_String. by apply find_first_occurrence. }
  assert (Hline2 : Str.substr_from (S n)
                     (spaces (S n) +:+ String a (name +:+ String space rest))
                   = String a name +:+ String space rest).
  { rewrite <- (length_spaces (S n)) at 1. by rewrite substr_from_app. }
  rewrite Hsp1. rewrite substr_from_app.
  rewrite app_String. rewrite find_first_not_of_spaces by done.
  rewrite Hline2.
  rewrite (find_first_occurrence space (String a name) rest) by done.
  cbn [Str.substr_from]. by rewrite substr_to_app_length.
Qed.

(** A line has at most one descriptor. *)
Lemma named_unique line name name' : named line name → named line name' → name = name'.
Proof. intros H1%named_name_field H2%named_name_field. congruence. Qed.

Lemma loop_body_yields line :
  ∃ o, line_yields flags_from_bracket line o ∧ loop_body line [] = omap id [o].
Proof.
  rewrite loop_body_fields.
  destruct (flags_from_bracket line) as [flags|] eqn:Hflags.
  2:{ exists None. split; [|done]. intros p (flags & Hf & _). congruence. }
  case_bool_decide as HF.
  2:{ exists None. split; [|done]. intros p (flags' & Hf & HF' & _). congruence. }
  destruct (name_field line) as [name|] eqn:Hname.
  2:{ exists None. split; [|done].
      intros p (flags' & _ & _ & Hn%named_name_field & _). congruence. }
  exists (Some (name, bool_decide ("E"%char ∈ Str.chars flags))).
  split; [|done]. exists flags. split; [done|]. split; [done|].
  split; [by apply name_field_named|]. cbn [snd]. apply bool_decide_eq_true.
Qed.

Lemma bind_loop_body_yields lines :
  ∃ picks, Forall2 (line_yields flags_from_bracket) lines picks
           ∧ (lines ≫= λ l, loop_body l []) = omap id picks.
Proof.
  induction lines as [|l lines (picks & Hall & Heq)].
  - by exists [].
  - destruct (loop_body_yields l) as (o & Ho & Hl).
    exists (o :: picks). split; [by constructor|].
    rewrite bind_cons, Heq, Hl. by destruct o.
Qed.

End LineByLine.

(** C3, as the source has it: for every listing, [getPartsToClear] goes
    through the lines in order and returns, in that order, the
    descriptor of each line that has one; every other line gives
    nothing.  A line has a descriptor when it contains a '[', carries an
    F somewhere from that first '[' to the end of the line, and has a
    second field: after the text up to the first space and the run of
    spaces that follows, a non-empty name that is followed by a space.
    The descriptor holds that name, and its ECC bit is true exactly when
    an E occurs from the first '[' to the end of the line. *)
Theorem getPartsToClear_line_by_line (info : string) :
  parses_line_by_line flags_from_bracket info.
Proof.
  unfold parses_line_by_line. rewrite getPartsToClear_bind.
  apply bind_loop_body_yields.
Qed.

(** C3, as stated, fails: the F of this line stands after its bracketed
    flag field, which holds no F, and the line still yields a descriptor. *)
Lemma getPartsToClear_F_outside_brackets :
  utils_parse.getPartsToClear "ID=00 PART [---] F" = [("PART", false)]
  ∧ bracketed_flags "ID=00 PART [---] F" = Some "---"
  ∧ ¬ parses_line_by_line bracketed_flags "ID=00 PART [---] F".
Proof.
  split; [reflexivity|]. split; [reflexivity|].
  intros (picks & Hall & Heq).
  change (utils_parse.getPartsToClear "ID=00 PART [---] F")
    with [("PART", false)] in Heq.
  change (listing_lines "ID=00 PART [---] F") with ["ID=00 PART [---] F"] in Hall.
  apply Forall2_cons_inv_l in Hall as (o & picks' & Ho & Hnil & ->).
  apply Forall2_nil_inv_l in Hnil as ->.
  destruct o as [p|]; [|done].
  destruct Ho as (flags & Hflags & HF & _).
  change (bracketed_flags "ID=00 PART [---] F") with (Some "---") in Hflags.
  simplify_eq. unfold Str.chars in HF; simpl in HF.
  repeat (apply elem_of_cons in HF as [HF|HF]; [discriminate|]).
  by apply elem_of_nil in HF.
Qed.

(** X1: every partition name [getPartsToClear] returns is non-empty and
    holds neither a space nor a newline, whatever the listing is. *)
Theorem getPartsToClear_names (info name : string) (ecc : bool) :
  (name, ecc) ∈ utils_parse.getPartsToClear info →
  name ≠ "" ∧ (space ∉ Str.chars name) ∧ (newline ∉ Str.chars name).
Proof.
  intros (line & Hline & Hbody)%elem_of_getPartsToClear.
  destruct (loop_body_name _ _ Hbody) as (Hne & Hsp & Hsub).
  destruct (listing_lines_chars _ _ Hline) as [Hnl _].
  split; [done|]. split; [done|]. intros Hc. by apply Hnl, Hsub.
Qed.

Lemma getPartsToClear_names_witness :
  "MVPD" ≠ "" ∧ (space ∉ Str.chars "MVPD") ∧ (newline ∉ Str.chars "MVPD").
Proof.
  apply (getPartsToClear_names sample_listing "MVPD" true).
  rewrite getPartsToClear_sample. left.
Defined.

(** X2: a listing in which no F occurs, or no '[', yields no candidate. *)
Theorem getPartsToClear_without_flag (info : string) :
  "F"%char ∉ Str.chars info ∨ "["%char ∉ Str.chars info →
  utils_parse.getPartsToClear info = [].
Proof.
  intros Hno.
  destruct (utils_parse.getPartsToClear info) as [|[name ecc] rest] eqn:Hres; [done|].
  assert (Hin : (name, ecc) ∈ utils_parse.getPartsToClear info)
    by (rewrite Hres; left).
  apply elem_of_getPartsToClear in Hin as (line & Hline & Hbody).
  destruct (listing_lines_chars _ _ Hline) as [_ Hsub].
  destruct (loop_body_candidate line) as [Hnil|(q & Hq & flags & Hflags & HF & _)];
    [congruence|].
  unfold flags_from_bracket in Hflags.
  destruct (Str.find "[" line) as [pos|] eqn:Hpos; [|done].
  injection Hflags as <-. exfalso. destruct Hno as [Hno|Hno]; apply Hno, Hsub.
  - by eapply chars_substr_from.
  - by eapply find_Some_elem_of.
Qed.

Lemma getPartsToClear_without_flag_witness :
  utils_parse.getPartsToClear
    "ID=11 HBB 0x00205000..0x00305000 (actual=0x00100000) [EL--------]" = [].
Proof.
  apply getPartsToClear_without_flag. left.
  unfold Str.chars. cbn.
  intros H. repeat (apply elem_of_cons in H as [H|H]; [discriminate|]).
  by apply elem_of_nil in H.
Defined.

Section ParserConcat.
Import utils_parse.

Lemma find_app_found c s t k :
  Str.find c s = Some k → Str.find c (s +:+ t) = Some k.
Proof.
  revert k. induction s as [|a s IH]; intros k; [done|].
  rewrite app_String. cbn [Str.find].
  destruct (Ascii.eqb a c); [done|].
  destruct (Str.find c s) as [i|]; [|done]. intros [= <-]. by rewrite (IH i).
Qed.

Lemma substr_from_app_le n s t :
  n ≤ String.length s → Str.substr_from n (s +:+ t) = Str.substr_from n s +:+ t.
Proof.
  revert s. induction n as [|n IH]; intros [|a s]; cbn [String.length]; try done.
  - lia.
  - intros Hle. rewrite app_String. cbn [Str.substr_from]. apply IH. lia.
Qed.

Lemma substr_from_app_cons s c t :
  Str.substr_from (S (String.length s)) (s +:+ String c t) = t.
Proof. induction s as [|a s IH]; [done|]. by rewrite app_String. Qed.

Lemma find_None_notin c s : Str.find c s = None → c ∉ Str.chars s.
Proof. intros Hf Hin. by apply find_elem_of in Hin. Qed.

(** The descriptors of two listings joined by a newline are those of the
    first followed by those of the second. *)
Lemma lines_bind_app (n : nat) (a b : string) :
  String.length a ≤ n →
  (listing_lines (a +:+ String newline b) ≫= λ l, loop_body l [])
  = (listing_lines a ≫= λ l, loop_body l [])
    ++ (listing_lines b ≫= λ l, loop_body l []).
Proof.
  revert a. induction n as [|n IH]; intros a Hlen.
  - destruct a; [|cbn in Hlen; lia]. reflexivity.
  - destruct (Str.find newline a) as [k|] eqn:Hf.
    + pose proof (find_lt _ _ _ Hf) as Hk.
      rewrite (listing_lines_find_Some _ _ (find_app_found _ _ _ _ Hf)).
      rewrite (listing_lines_find_Some _ _ Hf).
      rewrite substr_to_app by lia. rewrite substr_from_app_le by lia.
      rewrite !bind_cons, IH, app_assoc; [done|].
      rewrite length_substr_from. lia.
    + rewrite (listing_lines_find_Some (a +:+ String newline b) (String.length a))
        by (apply find_first_occurrence; by apply find_None_notin).
      rewrite substr_to_app_length, substr_from_app_cons.
      rewrite bind_cons. destruct a as [|c a]; [done|].
      rewrite (listing_lines_find_None _ Hf) by done.
      rewrite bind_cons. cbn [mbind list_bind]. by rewrite app_nil_r.
Qed.

End ParserConcat.

(** X3: parsing distributes over listings joined by a newline: the
    descriptors of [a], a newline and [b] are those of [a] followed by
    those of [b] (an empty line between them adds nothing). *)
Theorem getPartsToClear_app (a b : string) :
  utils_parse.getPartsToClear (a +:+ String newline b)
  = utils_parse.getPartsToClear a ++ utils_parse.getPartsToClear b.
Proof.
  rewrite !getPartsToClear_bind. by apply (lines_bind_app (String.length a)).
Qed.

(** Membership of a character in a literal string, by evaluation. *)
Ltac by_evaluation :=
  match goal with
  | |- ?P => apply (@bool_decide_unpack P _); vm_compute; exact I
  end.

(** X4: a line of the documented format [<id> <name> <addresses> [<flags>]]
    that carries an F in its flag field, followed by more of the listing,
    yields its name first, with the ECC bit telling whether the flag
    field holds an E, and then the descriptors of the rest. *)
Theorem getPartsToClear_documented_line (id name addrs flags rest : string)
    (a : ascii) (n : nat) :
  let line := id +:+ spaces (S n) +:+ String a name
              +:+ String space (addrs +:+ String "[" flags) in
  space ∉ Str.chars id → "["%char ∉ Str.chars id →
  space ∉ Str.chars (String a name) → "["%char ∉ Str.chars (String a name) →
  "["%char ∉ Str.chars addrs →
  "F"%char ∈ Str.chars (String "[" flags) →
  newline ∉ Str.chars line →
  utils_parse.getPartsToClear (line +:+ String newline rest)
  = (String a name, bool_decide ("E"%char ∈ Str.chars (String "[" flags)))
    :: utils_parse.getPartsToClear rest.
Proof.
  intros line Hid_sp Hid_br Hname_sp Hname_br Haddrs HF Hnl.
  rewrite !getPartsToClear_bind, (lines_bind_app (String.length line)) by done.
  assert (Hlines : listing_lines line = [line]).
  { apply listing_lines_find_None.
    - destruct (Str.find newline line) eqn:Hf; [|done].
      by apply find_Some_elem_of in Hf.
    - subst line. destruct id; [|done]. by cbn [spaces]. }
  rewrite Hlines, bind_cons. cbn [mbind list_bind]. rewrite app_nil_r.
  subst line.
  by rewrite (loop_body_documented_line id name addrs flags a n []).
Qed.

Lemma getPartsToClear_documented_line_witness :
  utils_parse.getPartsToClear
    (("ID=06" +:+ spaces 1 +:+ "MVPD"
      +:+ String space ("0x0012d000..0x001bd000 (actual=0x00090000) "
                        +:+ String "[" "E--P--F-C-]"))
     +:+ String newline "ID=11 HBB 0x00205000..0x00305000 (actual=0x00100000) [EL--------]")
  = [("MVPD", true)].
Proof.
  apply (getPartsToClear_documented_line "ID=06" "VPD"
           "0x0012d000..0x001bd000 (actual=0x00090000) " "E--P--F-C-]"
           "ID=11 HBB 0x00205000..0x00305000 (actual=0x00100000) [EL--------]"
           "M" 0); by_evaluation.
Defined.

(** * More about the version read *)

Section ReadVersionMore.
Import utils.

Lemma getline_no_delim delim f str :
  delim ∉ Str.chars str → delim ∉ Str.chars (Ios.getline delim f str).2.
Proof.
  intros Hstr. unfold Ios.getline.
  destruct (Ios.good f); [|done].
  destruct (Str.find delim (Ios.remaining f)) as [k|] eqn:Hf; cbn [snd].
  - by apply find_not_before.
  - by apply find_None_notin.
Qed.

Lemma read_version_no_NUL garbage f : NUL ∉ Str.chars (read_version garbage f).
Proof.
  unfold read_version. destruct (Ios.read MAGIC_SIZE f garbage) as [f1 magic].
  set (f2 := if memcmp_eq magic MAGIC MAGIC_SIZE then _ else _).
  pose proof (getline_no_delim NUL f2 "") as Hg.
  destruct (Ios.getline NUL f2 "") as [f3 version]. apply Hg.
  by intros ?%elem_of_nil.
Qed.

(** Nothing is read from a stream that has failed. *)
Lemma failed_stream_reads_nothing f (skip : bool) :
  failbit f = true →
  (Ios.getline NUL (if skip then Ios.ignore 4096 (Ios.seekg_beg f)
                    else Ios.seekg_beg f) "").2 = "".
Proof.
  intros Hfail. unfold Ios.seekg_beg. rewrite Hfail.
  by destruct skip.
Qed.

Lemma read_version_failed garbage f :
  failbit (Ios.read MAGIC_SIZE f garbage).1 = true → read_version garbage f = "".
Proof.
  intros Hfail. unfold read_version.
  destruct (Ios.read MAGIC_SIZE f garbage) as [f1 magic]. cbn [fst] in Hfail.
  pose proof (failed_stream_reads_nothing f1
                (memcmp_eq magic MAGIC MAGIC_SIZE) Hfail) as Hg.
  by destruct (Ios.getline NUL _ "").
Qed.

(** What the [magic] array held before the read never shows in the
    version. *)
Lemma read_version_garbage f g1 g2 : read_version g1 f = read_version g2 f.
Proof.
  destruct (Ios.good f) eqn:Hgood.
  - destruct (Nat.leb_spec MAGIC_SIZE (String.length (Ios.remaining f))) as [Hle|Hlt].
    + unfold read_version, Ios.read. rewrite Hgood.
      destruct (Nat.leb_spec MAGIC_SIZE (String.length (Ios.remaining f))); [|lia].
      unfold memcmp_eq.
      rewrite !substr_to_app by (rewrite length_substr_to; lia). done.
    + rewrite !read_version_failed; [done| |];
        unfold Ios.read; rewrite Hgood;
        by destruct (Nat.leb_spec MAGIC_SIZE (String.length (Ios.remaining f))); [lia|].
  - rewrite !read_version_failed; [done| |]; unfold Ios.read; by rewrite Hgood.
Qed.

End ReadVersionMore.

(** X5: when [fs::temp_directory_path()] returns, the scratch directory
    is made, the tool exits with status 0 and the version file holds at
    least four bytes, [getPNORVersion]
    returns the text from offset 4096 (with the magic prefix) or from
    offset 0 (without it) up to the first NUL, having run the one read
    command and opened the one file it named; this does not depend on
    whether the directory could be removed afterwards. *)
Theorem getPNORVersion_success (env : Env) (w : World) (d out blob : string) :
  let versionFile := path_append d "version" in
  temp_directory_path_error env (trace w) = None →
  mkdtemp_result env (trace w) (tmp_template env) = Some d →
  popen_result env (trace (made_tmpdir env w d)) (read_cmd versionFile)
  = Some (0%Z, out) →
  file_content env (trace (made_tmpdir env w d) ++ [EvPopen (read_cmd versionFile)])
               versionFile = Some blob →
  4 ≤ String.length blob →
  (utils.getPNORVersion env w).1
  = Returned (if has_magic blob then decoded_from 4096 blob else decoded_from 0 blob)
  ∧ popen_cmds (trace (utils.getPNORVersion env w).2)
    = popen_cmds (trace w) ++ [read_cmd versionFile]
  ∧ opened_files (trace (utils.getPNORVersion env w).2)
    = opened_files (trace w) ++ [versionFile].
Proof.
  intros versionFile Htmp Hmk Hp Hf Hlen. subst versionFile.
  rewrite (getPNORVersion_tmpdir env w d Htmp Hmk). cbv zeta. rewrite Hp, Hf.
  rewrite bool_decide_eq_false_2 by (intros H; by apply H).
  assert (Hv : utils.read_version (uninitialised env) (Ios.open blob)
               = if has_magic blob then decoded_from 4096 blob else decoded_from 0 blob).
  { destruct (has_magic blob) eqn:Hm.
    - by apply read_version_magic.
    - by apply read_version_plain. }
  rewrite Hv.
  destruct (remove_all_error env _ _) as [msg|];
    cbn [fst snd after trace made_tmpdir];
    rewrite !popen_cmds_app, !opened_files_app; cbn; by rewrite !app_nil_r.
Qed.

Lemma getPNORVersion_success_witness :
  (utils.getPNORVersion (env_version_file blob_full) world0).1
  = Returned blob_full
  ∧ popen_cmds (trace (utils.getPNORVersion (env_version_file blob_full) world0).2)
    = [read_cmd "/tmp/versionAb12Cd/version"]
  ∧ opened_files (trace (utils.getPNORVersion (env_version_file blob_full) world0).2)
    = ["/tmp/versionAb12Cd/version"].
Proof.
  assert (Hlen : 4 ≤ String.length blob_full) by (vm_compute; lia).
  exact (getPNORVersion_success (env_version_file blob_full) world0
           sample_tmpdir "" blob_full eq_refl eq_refl eq_refl eq_refl Hlen).
Defined.

(** Every string [getPNORVersion] returns is the empty string or what was
    read from the version file. *)
Lemma getPNORVersion_returns (env : Env) (w : World) (v : string) :
  (utils.getPNORVersion env w).1 = Returned v →
  v = "" ∨ ∃ f, v = utils.read_version (uninitialised env) f.
Proof.
  destruct (temp_directory_path_error env (trace w)) as [what|] eqn:Htmp;
    [by rewrite (getPNORVersion_no_tmp env w what Htmp)|].
  destruct (mkdtemp_result env (trace w) (tmp_template env)) as [d|] eqn:Hmk.
  - rewrite (getPNORVersion_tmpdir env w d Htmp Hmk). cbv zeta.
    destruct (popen_result env _ _) as [[rc out]|]; [|done].
    case_bool_decide.
    + intros [= <-]. by left.
    + destruct (remove_all_error env _ _); intros [= <-]; right; by eexists.
  - rewrite getPNORVersion_no_tmpdir by done. intros [= <-]. by left.
Qed.

(** X6: no version [getPNORVersion] returns holds a NUL byte. *)
Theorem getPNORVersion_no_NUL (env : Env) (w : World) (v : string) :
  (utils.getPNORVersion env w).1 = Returned v → NUL ∉ Str.chars v.
Proof.
  intros [->|[f ->]]%getPNORVersion_returns.
  - by intros ?%elem_of_nil.
  - apply read_version_no_NUL.
Qed.

Lemma getPNORVersion_no_NUL_witness :
  NUL ∉ Str.chars "ab".
Proof.
  apply (getPNORVersion_no_NUL
           (env_version_file ("ab" +:+ String NUL "cdef")) world0 "ab").
  reflexivity.
Defined.

(** X7: the bytes that happen to be in the uninitialised [magic] array
    never change what [getPNORVersion] does or returns. *)
Theorem getPNORVersion_ignores_uninitialised (env : Env) (garbage : string)
    (w : World) :
  utils.getPNORVersion (with_uninitialised env garbage) w
  = utils.getPNORVersion env w.
Proof.
  destruct (temp_directory_path_error env (trace w)) as [what|] eqn:Htmp.
  { rewrite (getPNORVersion_no_tmp env w what Htmp).
    by rewrite (getPNORVersion_no_tmp (with_uninitialised env garbage) w what Htmp). }
  destruct (mkdtemp_result env (trace w) (tmp_template env)) as [d|] eqn:Hmk.
  - rewrite (getPNORVersion_tmpdir env w d Htmp Hmk).
    rewrite (getPNORVersion_tmpdir (with_uninitialised env garbage) w d Htmp Hmk).
    cbv zeta.
    change (made_tmpdir (with_uninitialised env garbage) w d) with (made_tmpdir env w d).
    cbn [with_uninitialised popen_result file_content remove_all_error uninitialised].
    destruct (popen_result env _ _) as [[rc out]|]; [|done].
    case_bool_decide; [done|].
    by rewrite (read_version_garbage _ garbage (uninitialised env)).
  - rewrite (getPNORVersion_no_tmpdir env w Htmp Hmk).
    by rewrite (getPNORVersion_no_tmpdir (with_uninitialised env garbage) w Htmp Hmk).
Qed.

(** X8: [getPNORVersion] touches no scratch directory but its own: a
    directory other than the one mkdtemp makes in this call exists
    afterwards exactly when it existed before. *)
Theorem getPNORVersion_other_tmpdirs (env : Env) (w : World) (other : string) :
  mkdtemp_result env (trace w) (tmp_template env) ≠ Some other →
  other ∈ tmpdirs (utils.getPNORVersion env w).2 ↔ other ∈ tmpdirs w.
Proof.
  intros Hother.
  destruct (temp_directory_path_error env (trace w)) as [what|] eqn:Htmp;
    [by rewrite (getPNORVersion_no_tmp env w what Htmp)|].
  destruct (mkdtemp_result env (trace w) (tmp_template env)) as [d|] eqn:Hmk.
  - assert (Hne : other ≠ d) by congruence.
    rewrite (getPNORVersion_tmpdir env w d Htmp Hmk). cbv zeta.
    destruct (popen_result env _ _) as [[rc out]|];
      [case_bool_decide; [|destruct (remove_all_error env _ _)]|];
      cbn [snd after tmpdirs made_tmpdir];
      rewrite ?elem_of_difference, elem_of_union, elem_of_singleton;
      intuition congruence.
  - by rewrite getPNORVersion_no_tmpdir.
Qed.

Lemma getPNORVersion_other_tmpdirs_witness :
  "/tmp/versionZz99Yy" ∈ tmpdirs (utils.getPNORVersion env_read_exits_1
                                    (mkWorld [] {["/tmp/versionZz99Yy"]})).2
  ↔ "/tmp/versionZz99Yy" ∈ tmpdirs (mkWorld [] {["/tmp/versionZz99Yy"]}).
Proof.
  apply (getPNORVersion_other_tmpdirs env_read_exits_1
           (mkWorld [] {["/tmp/versionZz99Yy"]}) "/tmp/versionZz99Yy").
  discriminate.
Defined.

(** * More about clearing partitions *)

(** X9: a clear whose tool starts never fails its caller: whatever the
    exit status, [pnorClear] returns normally after one command and one
    log line that names the partition; the line is an error exactly when
    the status is not zero. *)
Theorem pnorClear_logs_status (env : Env) (w : World) (part out : string)
    (ecc : bool) (rc : Z) :
  popen_result env (trace w) (clear_cmd (part, ecc)) = Some (rc, out) →
  ∃ lvl msg fields,
    utils.pnorClear env part ecc w
    = (Returned tt, after w [EvPopen (clear_cmd (part, ecc)); EvLog lvl msg fields])
    ∧ (lvl = ERR ↔ rc ≠ 0%Z)
    ∧ FieldStr "PART" part ∈ fields.
Proof.
  intros Hp. rewrite pnorClear_run, Hp. unfold clear_log.
  case_bool_decide; eexists _, _, _; (split; [reflexivity|]); split;
    try (left; done); try done.
Qed.

Lemma pnorClear_logs_status_witness :
  ∃ lvl msg fields,
    utils.pnorClear env_clears_fail "HBEL" false world0
    = (Returned tt,
       after world0 [EvPopen (clear_cmd ("HBEL", false)); EvLog lvl msg fields])
    ∧ (lvl = ERR ↔ 1%Z ≠ 0%Z)
    ∧ FieldStr "PART" "HBEL" ∈ fields.
Proof.
  apply (pnorClear_logs_status env_clears_fail world0 "HBEL" "" false 1%Z).
  reflexivity.
Defined.

Section ResetTotal.
Variable env : Env.

Lemma logged_parts_app evs evs' :
  logged_parts (evs ++ evs') = logged_parts evs ++ logged_parts evs'.
Proof. apply omap_app. Qed.

Lemma logged_parts_clear_log part rc : logged_parts [clear_log part rc] = [part].
Proof. unfold clear_log. by case_bool_decide. Qed.

Lemma is_clear_event_clear_log part rc : is_clear_event (clear_log part rc).
Proof. unfold clear_log. by case_bool_decide. Qed.

(** The loop of [reset], whatever the tool does: it attempts the clears
    in order until one cannot be started. *)
Lemma clear_loop_total (parts : list PartClear) w :
  ∃ evs,
    Forall is_clear_event evs
    ∧ ((for_each (λ p : PartClear, utils.pnorClear env p.1 p.2) parts w
        = (Returned tt, after w evs)
        ∧ popen_cmds evs = clear_cmd <$> parts
        ∧ logged_parts evs = parts.*1)
       ∨ (for_each (λ p : PartClear, utils.pnorClear env p.1 p.2) parts w
          = (Thrown "popen() failed!", after w evs)
          ∧ ∃ n, n < length parts
                 ∧ popen_cmds evs = clear_cmd <$> take (S n) parts
                 ∧ logged_parts evs = (take n parts).*1)).
Proof.
  revert w. induction parts as [|[part ecc] parts IH]; intros w.
  - exists []. split; [constructor|]. left. by rewrite after_nil.
  - cbn [for_each]. unfold mbind, M_bind. rewrite pnorClear_run. cbn [fst snd].
    destruct (popen_result env (trace w) (clear_cmd (part, ecc)))
      as [[rc out]|] eqn:Hp.
    + destruct (IH (after w [EvPopen (clear_cmd (part, ecc)); clear_log part rc]))
        as (evs & Hall & Hcases).
      exists ([EvPopen (clear_cmd (part, ecc)); clear_log part rc] ++ evs).
      split.
      { repeat constructor; [apply is_clear_event_clear_log | done]. }
      rewrite popen_cmds_app, logged_parts_app.
      change [EvPopen (clear_cmd (part, ecc)); clear_log part rc]
        with ([EvPopen (clear_cmd (part, ecc))] ++ [clear_log part rc]).
      rewrite popen_cmds_app, logged_parts_app, logged_parts_clear_log.
      assert (Hpc : popen_cmds [clear_log part rc] = []).
      { unfold clear_log. by case_bool_decide. }
      rewrite Hpc. cbn [app popen_cmds logged_parts omap].
      destruct Hcases as [(Hrun & Hcmds & Hlogs)|(Hrun & n & Hn & Hcmds & Hlogs)].
      * left. rewrite Hrun, after_after, Hcmds, Hlogs. done.
      * right. rewrite Hrun, after_after. split; [done|].
        exists (S n). cbn [length take fmap list_fmap]. rewrite Hcmds, Hlogs.
        split; [lia | done].
    + exists [EvPopen (clear_cmd (part, ecc))]. split; [by repeat constructor|].
      right. split; [done|]. exists 0. cbn. split; [lia | done].
Qed.

(** The three ways a factory reset ends. *)
Lemma reset_total w :
  (popen_result env (trace w) list_cmd = None
   ∧ ItemUpdaterStatic_.reset env w
     = (Thrown "popen() failed!", after w [EvPopen list_cmd]))
  ∨ ∃ evs,
      Forall is_clear_event evs
      ∧ ((ItemUpdaterStatic_.reset env w
          = (Returned tt,
             after w ([EvPopen list_cmd; EvHiomapdSuspend] ++ evs ++ [EvHiomapdResume]))
          ∧ popen_cmds evs = clear_cmd <$> reset_candidates env w
          ∧ logged_parts evs = (reset_candidates env w).*1)
         ∨ (ItemUpdaterStatic_.reset env w
            = (Thrown "popen() failed!",
               after w ([EvPopen list_cmd; EvHiomapdSuspend] ++ evs))
            ∧ ∃ n, n < length (reset_candidates env w)
                   ∧ popen_cmds evs = clear_cmd <$> take (S n) (reset_candidates env w)
                   ∧ logged_parts evs = (take n (reset_candidates env w)).*1)).
Proof.
  unfold reset_candidates, ItemUpdaterStatic_.reset.
  unfold mbind, M_bind. rewrite getPartsToClear_run.
  destruct (popen_result env (trace w) list_cmd) as [[rc info]|] eqn:Hl;
    [right | by left].
  unfold utils.hiomapdSuspend, emit. cbn [trace tmpdirs after].
  destruct (clear_loop_total (utils_parse.getPartsToClear info)
              (after w [EvPopen list_cmd; EvHiomapdSuspend]))
    as (evs & Hall & Hcases).
  exists evs. split; [done|].
  unfold after in Hcases; cbn [trace tmpdirs] in Hcases.
  rewrite <- app_assoc. cbn [app].
  destruct Hcases as [(Hrun & Hcmds & Hlogs)|(Hrun & n & Hn & Hcmds & Hlogs)];
    rewrite Hrun.
  - left. split; [|done].
    unfold utils.hiomapdResume, emit, after. cbn [trace tmpdirs].
    by rewrite <- !app_assoc.
  - right. split; [|by exists n].
    unfold after. cbn [trace tmpdirs]. by rewrite <- !app_assoc.
Qed.

End ResetTotal.

Lemma filter_suspend_clear_events (evs : list Event) :
  Forall is_clear_event evs →
  filter (λ e, e = EvHiomapdSuspend) evs = []
  ∧ filter (λ e, e = EvHiomapdResume) evs = [].
Proof.
  induction 1 as [|e evs He _ [IHs IHr]]; [done|].
  rewrite !filter_cons, IHs, IHr.
  split; case_decide; subst; done.
Qed.

(** X10: when the listing query cannot be started, the factory reset
    throws before anything is suspended: the popen of the query is the
    only thing it did. *)
Theorem reset_listing_cannot_start (env : Env) (w : World) :
  popen_result env (trace w) list_cmd = None →
  ItemUpdaterStatic_.reset env w
  = (Thrown "popen() failed!", after w [EvPopen list_cmd]).
Proof.
  intros Hl. unfold ItemUpdaterStatic_.reset, mbind, M_bind.
  by rewrite getPartsToClear_run, Hl.
Qed.

Lemma reset_listing_cannot_start_witness :
  ItemUpdaterStatic_.reset env_tool_never_starts world0
  = (Thrown "popen() failed!", after world0 [EvPopen list_cmd]).
Proof.
  apply (reset_listing_cannot_start env_tool_never_starts world0). reflexivity.
Defined.

(** X11: when the listing parses to no candidate, whatever the exit
    status of the query was, the factory reset still suspends and resumes
    hiomapd, with nothing in between. *)
Theorem reset_without_candidates (env : Env) (w : World) (rc : Z) (info : string) :
  popen_result env (trace w) list_cmd = Some (rc, info) →
  utils_parse.getPartsToClear info = [] →
  ItemUpdaterStatic_.reset env w
  = (Returned tt, after w [EvPopen list_cmd; EvHiomapdSuspend; EvHiomapdResume]).
Proof.
  intros Hl Hnone.
  unfold ItemUpdaterStatic_.reset, mbind, M_bind.
  rewrite getPartsToClear_run, Hl, Hnone.
  unfold utils.hiomapdSuspend, utils.hiomapdResume, emit, mret, M_ret, after.
  cbn [for_each trace tmpdirs mret M_ret]. by rewrite <- !app_assoc.
Qed.

Lemma reset_without_candidates_witness :
  ItemUpdaterStatic_.reset (sample_env (popen_exits 1) None None None) world0
  = (Returned tt, after world0 [EvPopen list_cmd; EvHiomapdSuspend; EvHiomapdResume]).
Proof.
  apply (reset_without_candidates (sample_env (popen_exits 1) None None None)
           world0 1%Z ""); reflexivity.
Defined.

(** X12: a factory reset ends in one of two ways, whatever the tool
    does: it returns, and then resume is the last thing it did; or it
    throws "popen() failed!", and then it has not resumed.  Either way it
    suspends at most once and leaves the scratch directories alone. *)
Theorem reset_outcomes (env : Env) (w : World) :
  tmpdirs (ItemUpdaterStatic_.reset env w).2 = tmpdirs w
  ∧ ∃ evs,
      trace (ItemUpdaterStatic_.reset env w).2 = trace w ++ evs
      ∧ length (filter (λ e, e = EvHiomapdSuspend) evs) ≤ 1
      ∧ match (ItemUpdaterStatic_.reset env w).1 with
        | Returned _ =>
            last evs = Some EvHiomapdResume
            ∧ length (filter (λ e, e = EvHiomapdResume) evs) = 1
        | Thrown what =>
            what = "popen() failed!" ∧ (EvHiomapdResume ∉ evs)
        end.
Proof.
  destruct (reset_total env w)
    as [[_ Hrun]|(evs & Hall & [(Hrun & _)|(Hrun & _)])]; rewrite Hrun.
  - split; [done|]. exists [EvPopen list_cmd]. split; [done|].
    split; [vm_compute; lia|]. split; [done|].
    intros [?|?%elem_of_nil]%elem_of_cons; done.
  - destruct (filter_suspend_clear_events _ Hall) as [Hs Hr].
    split; [done|]. eexists. split; [reflexivity|].
    rewrite !filter_app, Hs, Hr. split; [vm_compute; lia|].
    split; [|done]. by rewrite app_assoc, last_snoc.
  - destruct (filter_suspend_clear_events _ Hall) as [Hs Hr].
    split; [done|]. eexists. split; [reflexivity|].
    rewrite !filter_app, Hs. split; [vm_compute; lia|]. split; [done|].
    intros [Hin|Hin]%elem_of_app.
    + repeat (apply elem_of_cons in Hin as [Hin|Hin]; [discriminate|]).
      by apply elem_of_nil in Hin.
    + by apply (proj1 (Forall_forall _ _) Hall) in Hin.
Qed.

(** X13: whenever a factory reset returns, it has attempted the clear of
    every candidate exactly once, in listing order, after the listing
    query, and has written one log line per candidate, in the same
    order. *)
Theorem reset_returns_after_all_clears (env : Env) (w : World) :
  (ItemUpdaterStatic_.reset env w).1 = Returned tt →
  ∃ evs,
    trace (ItemUpdaterStatic_.reset env w).2 = trace w ++ evs
    ∧ popen_cmds evs = list_cmd :: (clear_cmd <$> reset_candidates env w)
    ∧ logged_parts evs = (reset_candidates env w).*1.
Proof.
  destruct (reset_total env w)
    as [[_ Hrun]|(evs & Hall & [(Hrun & Hcmds & Hlogs)|(Hrun & _)])];
    rewrite Hrun; [done| |done].
  intros _. eexists. split; [reflexivity|].
  rewrite !popen_cmds_app, !logged_parts_app, Hcmds, Hlogs. cbn.
  by rewrite !app_nil_r.
Qed.

Lemma reset_returns_after_all_clears_witness :
  ∃ evs,
    trace (ItemUpdaterStatic_.reset env_clears_fail world0).2 = trace world0 ++ evs
    ∧ popen_cmds evs = list_cmd :: (clear_cmd <$> reset_candidates env_clears_fail world0)
    ∧ logged_parts evs = (reset_candidates env_clears_fail world0).*1.
Proof.
  apply (reset_returns_after_all_clears env_clears_fail world0). reflexivity.
Defined.

(** X14: the guard reset, whatever the tool does, suspends first and
    hands popen exactly one command, the ECC clear of GUARD; it returns
    exactly when that command could be started, and only then has it
    resumed. *)
Theorem gard_reset_outcomes (env : Env) (w : World) :
  ∃ evs,
    trace (GardResetStatic.reset env w).2 = trace w ++ EvHiomapdSuspend :: evs
    ∧ popen_cmds evs = [clear_cmd ("GUARD", true)]
    ∧ match (GardResetStatic.reset env w).1 with
      | Returned _ =>
          popen_result env (trace w ++ [EvHiomapdSuspend]) (clear_cmd ("GUARD", true))
          ≠ None
          ∧ last evs = Some EvHiomapdResume
      | Thrown what =>
          popen_result env (trace w ++ [EvHiomapdSuspend]) (clear_cmd ("GUARD", true))
          = None
          ∧ what = "popen() failed!" ∧ (EvHiomapdResume ∉ evs)
      end.
Proof.
  rewrite gard_reset_run.
  destruct (popen_result env _ _) as [[rc out]|]; eexists; (split; [reflexivity|]).
  - split; [|done]. unfold clear_log. by case_bool_decide.
  - split; [done|]. split; [done|]. split; [done|].
    intros [?|?%elem_of_nil]%elem_of_cons; done.
Qed.

(** * More about processing the image *)

Section ProcessMore.
Variable env : Env.
Import ItemUpdaterStatic_.

(** What [processPNORImage] does after the read, for an id that is not
    empty, in closed form. *)
Lemma processPNORImage_registers self w w1 fullVersion version extendedVersion :
  utils.getPNORVersion env w = (Returned fullVersion, w1) →
  getVersions env fullVersion = (version, extendedVersion) →
  getId env version ≠ "" →
  let id := getId env version in
  let st := state_of version extendedVersion in
  processPNORImage env self w
  = (Returned
       (mkItemUpdaterStatic
          ((if bool_decide (st = Active)
            then alter (set_redundancyPriority
                          (mkRedundancyPriority (image_path env id) 0%Z)) id
            else λ m, m)
             (map_insert id
                (ItemUpdaterStatic_rest.createActivationObject
                   (image_path env id) id extendedVersion st
                   (if bool_decide (st = Active)
                    then [(ACTIVATION_FWD_ASSOCIATION env,
                           ACTIVATION_REV_ASSOCIATION env,
                           HOST_INVENTORY_PATH env)]
                    else []))
                (activations self)))
          (map_insert id
             (ItemUpdaterStatic_rest.createVersionObject
                (image_path env id) id version Host "")
             (versions self))
          id),
     after w1 (empty_part_logs fullVersion version extendedVersion
               ++ association_calls env id st)).
Proof.
  intros Hread Hvers Hid id st. subst st.
  unfold processPNORImage. unfold mbind at 1. unfold M_bind.
  rewrite Hread, Hvers. fold id.
  rewrite (bool_decide_eq_false_2 (id = "")) by done.
  rewrite (bool_decide_eq_true_2 (id ≠ "")) by done.
  unfold state_of, empty_part_logs, association_calls,
    ItemUpdaterStatic_rest.createActivationObject,
    ItemUpdaterStatic_rest.createVersionObject, image_path.
  unfold mbind, M_bind, mret, M_ret, log, createActiveAssociation,
    createUpdateableAssociation, emit.
  destruct (bool_decide (version = "")), (bool_decide (extendedVersion = ""));
    cbn [trace tmpdirs];
    rewrite ?(bool_decide_eq_true_2 (Active = Active)) by done;
    rewrite ?(bool_decide_eq_false_2 (Invalid = Active)) by done;
    cbn [trace tmpdirs app]; rewrite updateFunctionalAssociation_run;
    unfold after; cbn [trace tmpdirs activations versions functionalVersionId];
    by rewrite <- ?app_assoc.
Qed.

Lemma processPNORImage_empty_id_aux self w w1 fullVersion :
  utils.getPNORVersion env w = (Returned fullVersion, w1) →
  getId env (getVersions env fullVersion).1 = "" →
  processPNORImage env self w = (Returned self, w1).
Proof.
  intros Hread Hid. unfold processPNORImage.
  unfold mbind at 1. unfold M_bind. rewrite Hread.
  destruct (getVersions env fullVersion) as [version ext]. cbn [fst] in Hid.
  by rewrite bool_decide_eq_true_2.
Qed.

Lemma state_of_Active version extendedVersion :
  state_of version extendedVersion = Active ↔ version ≠ "" ∧ extendedVersion ≠ "".
Proof.
  unfold state_of. repeat case_bool_decide; split; try done; intros []; done.
Qed.

End ProcessMore.

(** C5, as stated, fails when the id is registered already: the version,
    the extended version and the id read are all non-empty, and the
    updater holds an Invalid entity under the id.  [std::map::insert]
    keeps that entity: none is added and the one under the id stays
    Invalid, although the active association is created and the entity
    gets the redundancy priority 0. *)
Lemma processPNORImage_keeps_invalid_entity :
  let env := env_version_file blob_feedbeef_full in
  let path := "/xyz/openbmc_project/software/feedbeef" in
  utils.getPNORVersion env world0 = (Returned blob_feedbeef_full, world_after_read)
  ∧ getVersions env blob_feedbeef_full = ("feedbeef-2.0", "buildroot-2021.02")
  ∧ getId env "feedbeef-2.0" = "feedbeef"
  ∧ (∃ self',
       ItemUpdaterStatic_.processPNORImage env sample_updater world0
       = (Returned self',
          after world_after_read
            [EvCreateActiveAssociation path;
             EvCreateUpdateableAssociation path;
             EvUpdateFunctionalAssociation "feedbeef"])
       ∧ activations self'
         = {["feedbeef" :=
               mkActivationStatic path "feedbeef" "" Invalid []
                 (Some (mkRedundancyPriority path 0%Z))]}
       ∧ size (activations self') = size (activations sample_updater))
  ∧ ¬ entity_state_after env sample_updater world0 "feedbeef" Active.
Proof.
  intros env path.
  assert (Hread : utils.getPNORVersion env world0
                  = (Returned blob_feedbeef_full, world_after_read)) by reflexivity.
  assert (Hvers : getVersions env blob_feedbeef_full
                  = ("feedbeef-2.0", "buildroot-2021.02")) by reflexivity.
  assert (Hid : getId env "feedbeef-2.0" ≠ "") by discriminate.
  pose proof (processPNORImage_registers env sample_updater world0 world_after_read
                _ _ _ Hread Hvers Hid) as Hrun.
  cbv zeta in Hrun.
  change (getId env "feedbeef-2.0") with "feedbeef" in Hrun.
  change (state_of "feedbeef-2.0" "buildroot-2021.02") with Active in Hrun.
  rewrite (bool_decide_eq_true_2 (Active = Active)) in Hrun by done.
  rewrite (map_insert_present "feedbeef" _
             (mkActivationStatic path "feedbeef" "" Invalid [] None)) in Hrun
    by reflexivity.
  assert (Hacts : alter (set_redundancyPriority
                           (mkRedundancyPriority (image_path env "feedbeef") 0%Z))
                        "feedbeef" (activations sample_updater)
                  = {["feedbeef" :=
                        mkActivationStatic path "feedbeef" "" Invalid []
                          (Some (mkRedundancyPriority path 0%Z))]}).
  { unfold sample_updater. cbn [activations]. by rewrite alter_singleton. }
  rewrite Hacts in Hrun.
  split; [done|]. split; [done|]. split; [done|]. split.
  - eexists. split; [exact Hrun|]. cbn [activations].
    split; [done|]. by rewrite !map_size_singleton.
  - intros (self' & w' & entity & Hrun' & Hlook & Hst).
    rewrite Hrun in Hrun'. injection Hrun' as <- _.
    cbn [activations] in Hlook. rewrite lookup_singleton_eq in Hlook.
    injection Hlook as <-. discriminate Hst.
Qed.

(** C6, as stated, fails when the id is registered already: the version
    and the id read are non-empty, the extended version is empty, and
    the updater holds an Active entity under the id.  [std::map::insert]
    keeps that entity: after the call the entity under the id is still
    Active, with its association and its redundancy priority. *)
Lemma processPNORImage_keeps_active_entity :
  let env := env_version_file blob_feedbeef_version_only in
  let path := "/xyz/openbmc_project/software/feedbeef" in
  utils.getPNORVersion env world0
  = (Returned blob_feedbeef_version_only, world_after_read)
  ∧ getVersions env blob_feedbeef_version_only = ("feedbeef-2.0", "")
  ∧ getId env "feedbeef-2.0" = "feedbeef"
  ∧ (∃ self',
       ItemUpdaterStatic_.processPNORImage env sample_updater_active world0
       = (Returned self',
          after world_after_read
            [EvLog ERR "Failed to read extendedVersion"
                   [FieldStr "VERSION" blob_feedbeef_version_only];
             EvCreateUpdateableAssociation path;
             EvUpdateFunctionalAssociation "feedbeef"])
       ∧ activations self' = activations sample_updater_active)
  ∧ ¬ entity_state_after env sample_updater_active world0 "feedbeef" Invalid.
Proof.
  intros env path.
  assert (Hread : utils.getPNORVersion env world0
                  = (Returned blob_feedbeef_version_only, world_after_read))
    by reflexivity.
  assert (Hvers : getVersions env blob_feedbeef_version_only = ("feedbeef-2.0", ""))
    by reflexivity.
  assert (Hid : getId env "feedbeef-2.0" ≠ "") by discriminate.
  pose proof (processPNORImage_registers env sample_updater_active world0
                world_after_read _ _ _ Hread Hvers Hid) as Hrun.
  cbv zeta in Hrun.
  change (getId env "feedbeef-2.0") with "feedbeef" in Hrun.
  change (state_of "feedbeef-2.0" "") with Invalid in Hrun.
  rewrite (bool_decide_eq_false_2 (Invalid = Active)) in Hrun by done.
  rewrite (map_insert_present "feedbeef" _
             (mkActivationStatic path "feedbeef" "buildroot-2021.02" Active
                [("inventory", "activation",
                  "/xyz/openbmc_project/inventory/system/chassis")]
                (Some (mkRedundancyPriority path 0%Z)))) in Hrun
    by reflexivity.
  split; [done|]. split; [done|]. split; [done|]. split.
  - eexists. split; [exact Hrun|]. done.
  - intros (self' & w' & entity & Hrun' & Hlook & Hst).
    rewrite Hrun in Hrun'. injection Hrun' as <- _.
    cbn [activations sample_updater_active] in Hlook.
    rewrite lookup_singleton_eq in Hlook.
    injection Hlook as <-. discriminate Hst.
Qed.

(** X15: for an id that is not empty and not registered yet, the entity
    [processPNORImage] registers under it is Active exactly when both the
    version and the extended version are non-empty; it carries the
    redundancy priority (of value 0) and the association to the host
    inventory item exactly when it is Active. *)
Theorem processPNORImage_state (env : Env) (self : ItemUpdaterStatic)
    (w w1 : World) (fullVersion version extendedVersion : string) :
  utils.getPNORVersion env w = (Returned fullVersion, w1) →
  getVersions env fullVersion = (version, extendedVersion) →
  getId env version ≠ "" →
  activations self !! getId env version = None →
  ∃ self' w' entity,
    ItemUpdaterStatic_.processPNORImage env self w = (Returned self', w')
    ∧ activations self' !! getId env version = Some entity
    ∧ versionId entity = getId env version
    ∧ extVersion entity = extendedVersion
    ∧ (activation entity = Active ↔ version ≠ "" ∧ extendedVersion ≠ "")
    ∧ (activation entity ≠ Active → activation entity = Invalid
                                    ∧ redundancyPriority entity = None
                                    ∧ associations entity = [])
    ∧ (activation entity = Active →
         redundancyPriority entity
         = Some (mkRedundancyPriority (image_path env (getId env version)) 0%Z)
         ∧ associations entity
           = [(ACTIVATION_FWD_ASSOCIATION env, ACTIVATION_REV_ASSOCIATION env,
               HOST_INVENTORY_PATH env)]).
Proof.
  intros Hread Hvers Hid Hfresh.
  rewrite (processPNORImage_registers env self w w1 _ _ _ Hread Hvers Hid).
  cbv zeta. rewrite map_insert_fresh by done.
  pose proof (state_of_Active version extendedVersion) as Hst.
  destruct (state_of version extendedVersion) eqn:Hs.
  - rewrite (bool_decide_eq_true_2 (Active = Active)) by done.
    rewrite alter_insert_eq. eexists _, _, _. split; [reflexivity|].
    cbn [activations]. rewrite lookup_insert_eq. split; [reflexivity|].
    cbn. split; [done|]. split; [done|]. split; [done|].
    split; [by intros [] | done].
  - rewrite (bool_decide_eq_false_2 (Invalid = Active)) by done.
    eexists _, _, _. split; [reflexivity|].
    cbn [activations]. rewrite lookup_insert_eq. split; [reflexivity|].
    cbn. split; [done|]. split; [done|]. split; [done|]. by split.
Qed.

Lemma processPNORImage_state_witness :
  ∃ self' w' entity,
    ItemUpdaterStatic_.processPNORImage (env_version_file blob_version_only)
                                        fresh_updater world0
    = (Returned self', w')
    ∧ activations self' !! "open-pow" = Some entity
    ∧ versionId entity = "open-pow"
    ∧ extVersion entity = ""
    ∧ (activation entity = Active ↔ "open-power-v2.4" ≠ "" ∧ "" ≠ "")
    ∧ (activation entity ≠ Active → activation entity = Invalid
                                    ∧ redundancyPriority entity = None
                                    ∧ associations entity = [])
    ∧ (activation entity = Active →
         redundancyPriority entity
         = Some (mkRedundancyPriority "/xyz/openbmc_project/software/open-pow" 0%Z)
         ∧ associations entity
           = [("inventory", "activation",
               "/xyz/openbmc_project/inventory/system/chassis")]).
Proof.
  exact (processPNORImage_state (env_version_file blob_version_only) fresh_updater
           world0 world_after_read blob_version_only "open-power-v2.4" ""
           eq_refl eq_refl ltac:(discriminate) eq_refl).
Defined.

(** X16: for an id that is not empty, whatever is registered already,
    [processPNORImage] does this after the read, in this order: one
    error line for an empty version, one for an empty extended version,
    createActiveAssociation when neither is empty, then always
    createUpdateableAssociation and updateFunctionalAssociation; the
    functional marker becomes the id. *)
Theorem processPNORImage_calls (env : Env) (self : ItemUpdaterStatic)
    (w w1 : World) (fullVersion version extendedVersion : string) :
  utils.getPNORVersion env w = (Returned fullVersion, w1) →
  getVersions env fullVersion = (version, extendedVersion) →
  getId env version ≠ "" →
  ∃ self',
    ItemUpdaterStatic_.processPNORImage env self w
    = (Returned self',
       after w1 (empty_part_logs fullVersion version extendedVersion
                 ++ association_calls env (getId env version)
                                      (state_of version extendedVersion)))
    ∧ functionalVersionId self' = getId env version.
Proof.
  intros Hread Hvers Hid.
  rewrite (processPNORImage_registers env self w w1 _ _ _ Hread Hvers Hid).
  by eexists.
Qed.

Lemma processPNORImage_calls_witness :
  ∃ self',
    ItemUpdaterStatic_.processPNORImage (env_version_file blob_version_only)
                                        fresh_updater world0
    = (Returned self',
       after world_after_read
         [EvLog ERR "Failed to read extendedVersion"
                [FieldStr "VERSION" blob_version_only];
          EvCreateUpdateableAssociation "/xyz/openbmc_project/software/open-pow";
          EvUpdateFunctionalAssociation "open-pow"])
    ∧ functionalVersionId self' = "open-pow".
Proof.
  exact (processPNORImage_calls (env_version_file blob_version_only) fresh_updater
           world0 world_after_read blob_version_only "open-power-v2.4" ""
           eq_refl eq_refl ltac:(discriminate)).
Defined.

(** X17: together with the entity, [processPNORImage] registers a
    version object under the same id when none is there: the one
    [createVersionObject] builds for the image path, the id, the version
    string, the Host purpose and an empty file path, with its Delete
    interface. *)
Theorem processPNORImage_version_object (env : Env) (self : ItemUpdaterStatic)
    (w w1 : World) (fullVersion version extendedVersion : string) :
  utils.getPNORVersion env w = (Returned fullVersion, w1) →
  getVersions env fullVersion = (version, extendedVersion) →
  getId env version ≠ "" →
  versions self !! getId env version = None →
  ∃ self' w',
    ItemUpdaterStatic_.processPNORImage env self w = (Returned self', w')
    ∧ versions self'
      = <[getId env version :=
            ItemUpdaterStatic_rest.createVersionObject
              (image_path env (getId env version)) (getId env version)
              version Host ""]> (versions self)
    ∧ deleteObject (ItemUpdaterStatic_rest.createVersionObject
                      (image_path env (getId env version)) (getId env version)
                      version Host "") = true.
Proof.
  intros Hread Hvers Hid Hfresh.
  rewrite (processPNORImage_registers env self w w1 _ _ _ Hread Hvers Hid).
  cbv zeta. rewrite (map_insert_fresh _ _ (versions self)) by done.
  by eexists _, _.
Qed.

Lemma processPNORImage_version_object_witness :
  ∃ self' w',
    ItemUpdaterStatic_.processPNORImage (env_version_file blob_full)
                                        fresh_updater world0
    = (Returned self', w')
    ∧ versions self'
      = <["open-pow" :=
            ItemUpdaterStatic_rest.createVersionObject
              "/xyz/openbmc_project/software/open-pow" "open-pow"
              "open-power-v2.4" Host ""]> (versions fresh_updater)
    ∧ deleteObject (ItemUpdaterStatic_rest.createVersionObject
                      "/xyz/openbmc_project/software/open-pow" "open-pow"
                      "open-power-v2.4" Host "") = true.
Proof.
  exact (processPNORImage_version_object (env_version_file blob_full) fresh_updater
           world0 world_after_read blob_full "open-power-v2.4" "buildroot-2021.02"
           eq_refl eq_refl ltac:(discriminate) eq_refl).
Defined.

Lemma lookup_map_insert_ne {V : Type} (k k' : string) (v : V) (m : gmap string V) :
  k ≠ k' → map_insert k v m !! k' = m !! k'.
Proof.
  intros Hne. unfold map_insert. destruct (m !! k); [done|].
  by rewrite lookup_insert_ne.
Qed.

(** X18: a call of [processPNORImage] never touches what is registered
    under other ids: every id but the one the call registers maps to the
    same entity and the same version object as before, also when the call
    registers nothing or throws. *)
Theorem processPNORImage_other_ids (env : Env) (self : ItemUpdaterStatic)
    (w w' : World) (r : outcome ItemUpdaterStatic) (k : string) :
  ItemUpdaterStatic_.processPNORImage env self w = (r, w') →
  registered_by env w ≠ Some k →
  activations (object_after self r) !! k = activations self !! k
  ∧ versions (object_after self r) !! k = versions self !! k.
Proof.
  unfold registered_by. intros Hrun Hk.
  destruct (utils.getPNORVersion env w) as [[full|what] w1] eqn:Hread.
  - destruct (getVersions env full) as [version ext] eqn:Hvers. cbn [fst] in Hk.
    case_bool_decide as Hid.
    + rewrite (processPNORImage_empty_id_aux env self w w1 full Hread) in Hrun.
      * by injection Hrun as <- _.
      * by rewrite Hvers.
    + rewrite (processPNORImage_registers env self w w1 _ _ _ Hread Hvers Hid) in Hrun.
      injection Hrun as <- _. cbn [object_after activations versions].
      assert (Hne : getId env version ≠ k) by congruence.
      split; [|by apply lookup_map_insert_ne].
      case_bool_decide; [rewrite lookup_alter_ne by done|];
        by apply lookup_map_insert_ne.
  - unfold ItemUpdaterStatic_.processPNORImage in Hrun.
    unfold mbind at 1 in Hrun. unfold M_bind in Hrun. rewrite Hread in Hrun.
    by injection Hrun as <- _.
Qed.

Lemma processPNORImage_other_ids_witness :
  let run := ItemUpdaterStatic_.processPNORImage (env_version_file blob_full)
                                                 sample_updater world0 in
  activations (object_after sample_updater run.1) !! "feedbeef"
  = activations sample_updater !! "feedbeef"
  ∧ versions (object_after sample_updater run.1) !! "feedbeef"
    = versions sample_updater !! "feedbeef".
Proof.
  intros run.
  apply (processPNORImage_other_ids (env_version_file blob_full) sample_updater
           world0 run.2 run.1 "feedbeef").
  - reflexivity.
  - discriminate.
Defined.

(** X19: when [getPNORVersion] throws, [processPNORImage] throws the same
    exception at once: nothing is logged, no association is created and
    the world is as the read left it. *)
Theorem processPNORImage_rethrows (env : Env) (self : ItemUpdaterStatic)
    (w w1 : World) (what : string) :
  utils.getPNORVersion env w = (Thrown what, w1) →
  ItemUpdaterStatic_.processPNORImage env self w = (Thrown what, w1).
Proof.
  intros Hread. unfold ItemUpdaterStatic_.processPNORImage.
  unfold mbind at 1. unfold M_bind. by rewrite Hread.
Qed.

Lemma processPNORImage_rethrows_witness :
  ItemUpdaterStatic_.processPNORImage env_tool_never_starts fresh_updater world0
  = (Thrown "popen() failed!", world_after_failed_popen).
Proof.
  apply (processPNORImage_rethrows env_tool_never_starts fresh_updater world0
           world_after_failed_popen "popen() failed!").
  reflexivity.
Defined.

(** X20: [updateFunctionalAssociation] makes its argument the one and
    only functional version, whatever was functional before, hands the
    same id to the base class once, and leaves the registered entities
    and version objects as they are. *)
Theorem updateFunctionalAssociation_only_functional (self : ItemUpdaterStatic)
    (id : string) (w : World) :
  ∃ self',
    ItemUpdaterStatic_.updateFunctionalAssociation self id w
    = (Returned self', after w [EvUpdateFunctionalAssociation id])
    ∧ (∀ x, ItemUpdaterStatic_.isVersionFunctional self' x = true ↔ x = id)
    ∧ activations self' = activations self
    ∧ versions self' = versions self.
Proof.
  rewrite updateFunctionalAssociation_run. eexists. split; [reflexivity|].
  split; [|done]. intros x. by rewrite isVersionFunctional_marker.
Qed.

(** * freeSpace *)

Section FreeSpace.
Import ItemUpdaterStatic_rest.
Variable erase : string → ItemUpdaterStatic → M (bool * ItemUpdaterStatic).

#[local] Instance key_le_trans {A : Type} : Transitive (@key_le A).
Proof. intros x y z. unfold key_le. apply transitivity. Qed.

#[local] Instance key_le_total {A : Type} : Total (@key_le A).
Proof. intros x y. unfold key_le. apply total, _. Qed.

Lemma elem_of_in_key_order {A : Type} (m : gmap string A) k a :
  (k, a) ∈ in_key_order m ↔ m !! k = Some a.
Proof.
  unfold in_key_order. rewrite merge_sort_Permutation.
  apply elem_of_map_to_list.
Qed.

Lemma freeSpace_loop_none rest self :
  Forall (λ x : string * ActivationStatic, activation x.2 ≠ Active) rest →
  freeSpace_loop erase rest self = mret (true, self).
Proof.
  induction 1 as [|x rest Hx _ IH]; [done|].
  cbn [freeSpace_loop]. by rewrite bool_decide_eq_false_2.
Qed.

(** The loop stops at the first Active element in the order of the
    visit. *)
Lemma freeSpace_loop_first rest self k a :
  (k, a) ∈ rest → activation a = Active →
  ∃ pre k0 a0 post,
    rest = pre ++ (k0, a0) :: post
    ∧ Forall (λ x : string * ActivationStatic, activation x.2 ≠ Active) pre
    ∧ activation a0 = Active
    ∧ freeSpace_loop erase rest self = erase (versionId a0) self.
Proof.
  intros Hin Hact. induction rest as [|[k1 a1] rest IH]; [by apply elem_of_nil in Hin|].
  destruct (decide (activation a1 = Active)) as [Ha1|Ha1].
  - exists [], k1, a1, rest. cbn [freeSpace_loop snd app].
    by rewrite bool_decide_eq_true_2.
  - apply elem_of_cons in Hin as [[= -> ->]|Hin]; [done|].
    destruct (IH Hin) as (pre & k0 & a0 & post & -> & Hpre & Ha0 & Hrun).
    exists ((k1, a1) :: pre), k0, a0, post. cbn [freeSpace_loop snd].
    rewrite bool_decide_eq_false_2 by done.
    split; [done|]. split; [by constructor|]. done.
Qed.

(** With an Active entity registered, [freeSpace] is the erase of the
    Active entity with the least id. *)
Lemma freeSpace_first_active self k a :
  activations self !! k = Some a → activation a = Active →
  ∃ k0 a0,
    activations self !! k0 = Some a0
    ∧ activation a0 = Active
    ∧ (∀ k' a', activations self !! k' = Some a' → activation a' = Active →
                String.le k0 k')
    ∧ freeSpace erase self = erase (versionId a0) self.
Proof.
  intros Hk Hact. unfold freeSpace.
  apply elem_of_in_key_order in Hk.
  destruct (freeSpace_loop_first _ self k a Hk Hact)
    as (pre & k0 & a0 & post & Hsplit & Hpre & Ha0 & Hrun).
  exists k0, a0. split.
  { apply elem_of_in_key_order. rewrite Hsplit. apply elem_of_app. right. left. }
  split; [done|]. split; [|done].
  intros k' a' Hk' Ha'. apply elem_of_in_key_order in Hk'.
  pose proof (StronglySorted_merge_sort key_le (map_to_list (activations self)))
    as Hsorted.
  fold (in_key_order (activations self)) in Hsorted. rewrite Hsplit in Hsorted, Hk'.
  apply elem_of_app in Hk' as [Hk'|Hk'].
  - by apply (proj1 (Forall_forall _ _) Hpre) in Hk'.
  - apply StronglySorted_app_1_r in Hsorted.
    apply elem_of_cons in Hk' as [[= -> ->]|Hk']; [done|].
    apply StronglySorted_inv in Hsorted as [_ Hall].
    by apply (proj1 (Forall_forall _ _) Hall) in Hk'.
Qed.

End FreeSpace.

(** X21: with no Active entity registered (an empty or corrupted PNOR),
    [freeSpace] answers true by itself: [erase] is not called and the
    object and the world stay as they are. *)
Theorem freeSpace_nothing_active
    (erase : string → ItemUpdaterStatic → M (bool * ItemUpdaterStatic))
    (self : ItemUpdaterStatic) (w : World) :
  (∀ k a, activations self !! k = Some a → activation a ≠ Active) →
  ItemUpdaterStatic_rest.freeSpace erase self w = (Returned (true, self), w).
Proof.
  intros Hnone. unfold ItemUpdaterStatic_rest.freeSpace.
  rewrite freeSpace_loop_none; [done|].
  apply Forall_forall. intros [k a] Hin%elem_of_in_key_order. by eapply Hnone.
Qed.

Lemma freeSpace_nothing_active_witness :
  ItemUpdaterStatic_rest.freeSpace sample_erase sample_updater world0
  = (Returned (true, sample_updater), world0).
Proof.
  apply (freeSpace_nothing_active sample_erase sample_updater world0).
  intros k a Hk.
  destruct (decide (k = "feedbeef")) as [->|Hne].
  - cbn in Hk. rewrite lookup_singleton_eq in Hk. by injection Hk as <-.
  - cbn in Hk. by rewrite lookup_singleton_ne in Hk.
Defined.

(** X22: with an Active entity registered, [freeSpace] is one call of
    [erase], for the version id stored in the Active entity whose key is
    the least, and its answer is the answer of that call. *)
Theorem freeSpace_erases_first_active
    (erase : string → ItemUpdaterStatic → M (bool * ItemUpdaterStatic))
    (self : ItemUpdaterStatic) (k : string) (a : ActivationStatic) :
  activations self !! k = Some a →
  activation a = Active →
  ∃ k0 a0,
    activations self !! k0 = Some a0
    ∧ activation a0 = Active
    ∧ (∀ k' a', activations self !! k' = Some a' → activation a' = Active →
                String.le k0 k')
    ∧ ItemUpdaterStatic_rest.freeSpace erase self = erase (versionId a0) self.
Proof. apply freeSpace_first_active. Qed.

(** Of two Active images the one with the lesser id is erased. *)
Example freeSpace_two_active :
  ItemUpdaterStatic_rest.freeSpace sample_erase updater_two_active world0
  = sample_erase "aaaa1111" updater_two_active world0.
Proof. reflexivity. Qed.

Lemma freeSpace_erases_first_active_witness :
  ∃ k0 a0,
    activations updater_two_active !! k0 = Some a0
    ∧ activation a0 = Active
    ∧ (∀ k' a', activations updater_two_active !! k' = Some a' →
                activation a' = Active → String.le k0 k')
    ∧ ItemUpdaterStatic_rest.freeSpace sample_erase updater_two_active
      = sample_erase (versionId a0) updater_two_active.
Proof.
  apply (freeSpace_erases_first_active sample_erase updater_two_active "bbbb2222"
           (mkActivationStatic "/xyz/openbmc_project/software/bbbb2222" "bbbb2222"
                               "ext" Active [] None)).
  - reflexivity.
  - reflexivity.
Defined.

(** X23: after [processPNORImage] has registered an Active image in an
    updater that held no Active one, [freeSpace] erases exactly that
    image: it is one call of [erase] for the id just registered. *)
Theorem freeSpace_after_processPNORImage
    (erase : string → ItemUpdaterStatic → M (bool * ItemUpdaterStatic))
    (env : Env) (self : ItemUpdaterStatic) (w w1 : World)
    (fullVersion version extendedVersion : string) :
  utils.getPNORVersion env w = (Returned fullVersion, w1) →
  getVersions env fullVersion = (version, extendedVersion) →
  version ≠ "" →
  extendedVersion ≠ "" →
  getId env version ≠ "" →
  (∀ k a, activations self !! k = Some a → activation a ≠ Active) →
  activations self !! getId env version = None →
  ∃ self' w',
    ItemUpdaterStatic_.processPNORImage env self w = (Returned self', w')
    ∧ ItemUpdaterStatic_rest.freeSpace erase self'
      = erase (getId env version) self'.
Proof.
  intros Hread Hvers Hv He Hid Hnone Hfresh.
  rewrite (processPNORImage_registers env self w w1 _ _ _ Hread Hvers Hid).
  cbv zeta.
  assert (Hst : state_of version extendedVersion = Active)
    by (by apply state_of_Active).
  rewrite Hst, (bool_decide_eq_true_2 (Active = Active)) by done.
  rewrite map_insert_fresh by done. rewrite alter_insert_eq.
  eexists _, _. split; [reflexivity|].
  set (self' := mkItemUpdaterStatic _ _ _).
  destruct (freeSpace_first_active erase self' (getId env version) _
              (lookup_insert_eq _ _ _) eq_refl)
    as (k0 & a0 & Hk0 & Ha0 & _ & ->).
  subst self'. cbn [activations] in Hk0.
  destruct (decide (getId env version = k0)) as [<-|Hne].
  - rewrite lookup_insert_eq in Hk0. by injection Hk0 as <-.
  - rewrite lookup_insert_ne in Hk0 by done. by apply Hnone in Hk0.
Qed.

Lemma freeSpace_after_processPNORImage_witness :
  ∃ self' w',
    ItemUpdaterStatic_.processPNORImage (env_version_file blob_full)
                                        sample_updater world0
    = (Returned self', w')
    ∧ ItemUpdaterStatic_rest.freeSpace sample_erase self'
      = sample_erase "open-pow" self'.
Proof.
  apply (freeSpace_after_processPNORImage sample_erase (env_version_file blob_full)
           sample_updater world0 world_after_read blob_full
           "open-power-v2.4" "buildroot-2021.02");
    try first [reflexivity | discriminate].
  intros k a Hk.
  destruct (decide (k = "feedbeef")) as [->|Hne].
  - cbn in Hk. rewrite lookup_singleton_eq in Hk. by injection Hk as <-.
  - cbn in Hk. by rewrite lookup_singleton_ne in Hk.
Defined.

(** * An invariant of the registered objects *)

Section WellKeyed.
Variable env : Env.

Lemma dom_map_insert {V : Type} (k : string) (v : V) (m : gmap string V) :
  dom (map_insert k v m) = {[k]} ∪ dom m.
Proof.
  unfold map_insert. destruct (m !! k) eqn:Hk.
  - apply elem_of_dom_2 in Hk. apply set_eq. intros x.
    rewrite elem_of_union, elem_of_singleton. intuition congruence.
  - apply dom_insert_L.
Qed.

Lemma lookup_map_insert_Some {V : Type} (k k' : string) (v v' : V)
    (m : gmap string V) :
  map_insert k v m !! k' = Some v' → m !! k' = Some v' ∨ (k' = k ∧ v' = v).
Proof.
  unfold map_insert. destruct (m !! k) eqn:Hk; [by left|].
  destruct (decide (k = k')) as [<-|Hne].
  - rewrite lookup_insert_eq. intros [= <-]. by right.
  - rewrite lookup_insert_ne by done. by left.
Qed.

Lemma processPNORImage_well_keyed self w r w' :
  ItemUpdaterStatic_.processPNORImage env self w = (r, w') →
  well_keyed env self → well_keyed env (object_after self r).
Proof.
  intros Hrun Hwk.
  destruct (utils.getPNORVersion env w) as [[full|what] w1] eqn:Hread.
  2:{ unfold ItemUpdaterStatic_.processPNORImage in Hrun.
      unfold mbind at 1 in Hrun. unfold M_bind in Hrun. rewrite Hread in Hrun.
      by injection Hrun as <- _. }
  destruct (getVersions env full) as [version ext] eqn:Hvers.
  destruct (decide (getId env version = "")) as [Hid|Hid].
  { rewrite (processPNORImage_empty_id_aux env self w w1 full Hread) in Hrun
      by (by rewrite Hvers).
    by injection Hrun as <- _. }
  rewrite (processPNORImage_registers env self w w1 _ _ _ Hread Hvers Hid) in Hrun.
  injection Hrun as <- _. cbn [object_after].
  destruct Hwk as (Hacts & Hvers' & Hdom).
  split; [|split]; cbn [activations versions].
  - intros k a. case_bool_decide.
    + rewrite lookup_alter. case_decide as Hk.
      * subst k. destruct (map_insert _ _ _ !! _) as [a0|] eqn:Ha0; [|done].
        intros [= <-]. cbn.
        apply lookup_map_insert_Some in Ha0 as [Ha0|[_ ->]]; [by apply Hacts | done].
      * intros [?|[-> ->]]%lookup_map_insert_Some; [by apply Hacts | done].
    + intros [?|[-> ->]]%lookup_map_insert_Some; [by apply Hacts | done].
  - intros k v [?|[-> ->]]%lookup_map_insert_Some; [by apply Hvers' | done].
  - case_bool_decide; rewrite ?dom_alter_L, !dom_map_insert; by rewrite Hdom.
Qed.

End WellKeyed.

(** X24: along any sequence of calls of the methods of this file, every
    entity and every version object stays stored under its own id with
    the object path of that id, and the two maps keep holding the same
    ids; in particular this holds from the empty updater on. *)
Theorem calls_well_keyed (env : Env) (self0 : ItemUpdaterStatic) (w0 : World)
    (last : option string) (self : ItemUpdaterStatic) (w : World) :
  calls env self0 w0 last self w →
  well_keyed env self0 →
  well_keyed env self.
Proof.
  induction 1 as [|last self w r w' Hcalls IH Hrun
                  |last self w r w' Hcalls IH Hrun
                  |last self w value versionId Hcalls IH
                  |last self w Hcalls IH]; intros Hwk; try by auto.
  eapply processPNORImage_well_keyed; [done | by apply IH].
Qed.

Lemma calls_well_keyed_witness :
  let run := ItemUpdaterStatic_.processPNORImage (env_version_file blob_full)
                                                 fresh_updater world0 in
  well_keyed (env_version_file blob_full) (object_after fresh_updater run.1).
Proof.
  intros run.
  apply (calls_well_keyed (env_version_file blob_full) fresh_updater world0
           (Some "open-pow") (object_after fresh_updater run.1) run.2).
  - exact (calls_processPNORImage (env_version_file blob_full) fresh_updater world0
             None fresh_updater world0 run.1 run.2 (calls_none _ _ _) eq_refl).
  - split; [|split]; [intros k a Hk | intros k v Hk | done];
      cbn in Hk; by rewrite lookup_empty in Hk.
Defined.

(** * Registered objects are kept *)

Section Kept.
Variable env : Env.

Lemma lookup_map_insert_keeps {V : Type} (k k' : string) (v v' : V)
    (m : gmap string V) :
  m !! k' = Some v' → map_insert k v m !! k' = Some v'.
Proof.
  intros Hk'. unfold map_insert. destruct (m !! k) eqn:Hk; [done|].
  rewrite lookup_insert_ne; [done|]. congruence.
Qed.

Lemma processPNORImage_keeps self w r w' k a v :
  ItemUpdaterStatic_.processPNORImage env self w = (r, w') →
  (activations self !! k = Some a →
     ∃ a', activations (object_after self r) !! k = Some a' ∧ same_image a a')
  ∧ (versions self !! k = Some v → versions (object_after self r) !! k = Some v).
Proof.
  intros Hrun.
  assert (Hsame : same_image a a) by done.
  destruct (utils.getPNORVersion env w) as [[full|what] w1] eqn:Hread.
  2:{ unfold ItemUpdaterStatic_.processPNORImage in Hrun.
      unfold mbind at 1 in Hrun. unfold M_bind in Hrun. rewrite Hread in Hrun.
      injection Hrun as <- _. split; [by exists a | done]. }
  destruct (getVersions env full) as [version ext] eqn:Hvers.
  destruct (decide (getId env version = "")) as [Hid|Hid].
  { rewrite (processPNORImage_empty_id_aux env self w w1 full Hread) in Hrun
      by (by rewrite Hvers).
    injection Hrun as <- _. split; [by exists a | done]. }
  rewrite (processPNORImage_registers env self w w1 _ _ _ Hread Hvers Hid) in Hrun.
  injection Hrun as <- _. cbn [object_after activations versions].
  split; [|by apply lookup_map_insert_keeps].
  intros Ha. case_bool_decide.
  - rewrite lookup_alter. case_decide as Hk.
    + subst k. rewrite (lookup_map_insert_keeps _ _ _ a) by done.
      eexists. split; [reflexivity | done].
    + exists a. by rewrite (lookup_map_insert_keeps _ _ _ a).
  - exists a. by rewrite (lookup_map_insert_keeps _ _ _ a).
Qed.

End Kept.

(** X25: no call of a method of this file replaces or removes what is
    registered: along any sequence of calls an entity that was registered
    stays registered under its id with the same version id, path,
    extended version, activation state and associations, and a version
    object that was registered stays exactly as it was. *)
Theorem calls_keep_registered (env : Env) (self0 : ItemUpdaterStatic) (w0 : World)
    (last : option string) (self : ItemUpdaterStatic) (w : World) (k : string) :
  calls env self0 w0 last self w →
  (∀ a, activations self0 !! k = Some a →
        ∃ a', activations self !! k = Some a' ∧ same_image a a')
  ∧ (∀ v, versions self0 !! k = Some v → versions self !! k = Some v).
Proof.
  induction 1 as [|last self w r w' Hcalls [IHa IHv] Hrun
                  |last self w r w' Hcalls IH Hrun
                  |last self w value versionId Hcalls IH
                  |last self w Hcalls IH]; try done.
  - split; [|done]. intros a Ha. by exists a.
  - split.
    + intros a Ha. destruct (IHa a Ha) as (a1 & Ha1 & Hs1).
      destruct (processPNORImage_keeps env self w r w' k a1
                  (mkVersion "" "" "" Host "" false) Hrun) as [Hkeep _].
      destruct (Hkeep Ha1) as (a2 & Ha2 & Hs2). exists a2. split; [done|].
      destruct Hs1 as (? & ? & ? & ? & ?), Hs2 as (? & ? & ? & ? & ?).
      repeat split; congruence.
    + intros v Hv.
      by apply (processPNORImage_keeps env self w r w' k
                  (mkActivationStatic "" "" "" Invalid [] None) v Hrun), IHv.
Qed.

Lemma calls_keep_registered_witness :
  let run := ItemUpdaterStatic_.processPNORImage
               (env_version_file "feedbeef-2.0") sample_updater world0 in
  (∀ a, activations sample_updater !! "feedbeef" = Some a →
        ∃ a', activations (object_after sample_updater run.1) !! "feedbeef" = Some a'
              ∧ same_image a a')
  ∧ (∀ v, versions sample_updater !! "feedbeef" = Some v →
          versions (object_after sample_updater run.1) !! "feedbeef" = Some v).
Proof.
  intros run.
  apply (calls_keep_registered (env_version_file "feedbeef-2.0") sample_updater world0
           (Some "feedbeef") (object_after sample_updater run.1) run.2 "feedbeef").
  exact (calls_processPNORImage (env_version_file "feedbeef-2.0") sample_updater
           world0 None sample_updater world0 run.1 run.2 (calls_none _ _ _) eq_refl).
Defined.

(** * The functional marker and the registered entities *)

Section Registered.
Variable env : Env.





End Registered.




(** * Object paths *)

Lemma path_append_relative p q :
  (∀ t, q ≠ String "/" t) →
  ∃ sep, path_append p q = p +:+ sep +:+ q
         ∧ sep = (if p is EmptyString then ""
                  else if ends_with_slash p then "" else "/").
Proof.
  intros Hrel. unfold path_append.
  destruct q as [|c q].
  - destruct p as [|a p]; [by exists ""|].
    destruct (ends_with_slash (String a p)); [by exists "" | by exists "/"].
  - destruct (decide (c = "/"%char)) as [->|Hne]; [by destruct (Hrel q)|].
    assert (Hq : match String c q with
                 | String "/"%char _ => String c q
                 | _ => match p with
                        | EmptyString => String c q
                        | _ => if ends_with_slash p then p +:+ String c q
                               else p +:+ "/" +:+ String c q
                        end
                 end
                 = match p with
                   | EmptyString => String c q
                   | _ => if ends_with_slash p then p +:+ String c q
                          else p +:+ "/" +:+ String c q
                   end).
    { destruct c as [[] [] [] [] [] [] [] []]; try reflexivity. done. }
    rewrite Hq. destruct p as [|a p]; [by exists ""|].
    destruct (ends_with_slash (String a p)); [by exists "" | by exists "/"].
Qed.

(** X26: under one root, different ids that do not begin with '/' get
    different object paths: [fs::path(SOFTWARE_OBJPATH) / id] is
    one-to-one on them. *)
Theorem image_path_inj (env : Env) (id1 id2 : string) :
  (∀ t, id1 ≠ String "/" t) →
  (∀ t, id2 ≠ String "/" t) →
  id1 ≠ id2 →
  image_path env id1 ≠ image_path env id2.
Proof.
  intros H1 H2 Hne. unfold image_path.
  destruct (path_append_relative (SOFTWARE_OBJPATH env) id1 H1) as (sep1 & -> & Hs1).
  destruct (path_append_relative (SOFTWARE_OBJPATH env) id2 H2) as (sep2 & -> & Hs2).
  rewrite Hs1, Hs2. intros Heq.
  by apply String.app_inj, String.app_inj in Heq.
Qed.

Lemma image_path_inj_witness :
  image_path (env_version_file blob_full) "open-pow"
  ≠ image_path (env_version_file blob_full) "feedbeef".
Proof.
  apply (image_path_inj (env_version_file blob_full) "open-pow" "feedbeef");
    discriminate.
Defined.
